(** * ByteBuf: a cursor-based binary buffer over a DataView

    Shallow embedding of the TypeScript class [ByteBuf] (src/byffer.ts) and
    of the part of the platform's [DataView] that the class calls.

    Modelling conventions.
    - A JavaScript [number] used as an index or as an integer argument is a
      [Z]; a [bigint] is a [Z] too.  Fractional numbers, NaN and the loss of
      precision of doubles above 2^53 are outside the model.
    - The backing [ArrayBuffer] is a [list byte]; its length never changes.
    - A [DataView] accessor either returns or throws [RangeError]; the pure
      accessors below return [option], [None] standing for the exception.
    - A method of [ByteBuf] mutates the object in place, hence a thrown
      exception leaves the object in the state reached so far: a method is
      a function from the state to a [result] that carries the state in
      both outcomes.
    - A JavaScript string is the list of its UTF-16 code units. *)

From Stdlib Require Import ZArith List Bool Lia.
From Stdlib Require Import Strings.Byte.
From Stdlib Require Strings.String Strings.Ascii.
Import String.StringSyntax.
Delimit Scope string_scope with string.
Import ListNotations.
Local Open Scope Z_scope.

(** ** Bytes *)

Definition byte_to_Z (b : byte) : Z := Z.of_N (Byte.to_N b).

(** The byte holding [z] modulo 256. *)
Definition byte_of_Z (z : Z) : byte :=
  match Byte.of_N (Z.to_N (z mod 256)) with
  | Some b => b
  | None => x00
  end.

(** ** Big-endian integers *)

(** Unsigned value of a byte sequence, most significant byte first. *)
Fixpoint be_combine (bs : list byte) : Z :=
  match bs with
  | [] => 0
  | b :: bs' => byte_to_Z b * 2 ^ (8 * Z.of_nat (length bs')) + be_combine bs'
  end.

(** The [w] low-order bytes of [z], most significant byte first. *)
Fixpoint be_split (w : nat) (z : Z) : list byte :=
  match w with
  | O => []
  | S w' => byte_of_Z (z / 2 ^ (8 * Z.of_nat w')) :: be_split w' z
  end.

(** Two's-complement reading of an unsigned [bits]-bit value. *)
Definition to_signed (bits : Z) (u : Z) : Z :=
  if u <? 2 ^ (bits - 1) then u else u - 2 ^ bits.

(** ** The DataView accessors used by the class

    [getX d off] and [setX d off v] follow GetViewValue and SetViewValue:
    the index is checked first (a negative index, or one whose element does
    not fit in the view, throws), the element is [w] bytes at [off], and
    the byte order is big-endian since the class never passes the
    little-endian flag.  A stored integer is reduced modulo 2^(8w). *)

(** [bs] stored over the elements of [d] from index [n] on. *)
Definition splice (n : nat) (bs d : list byte) : list byte :=
  firstn n d ++ bs ++ skipn (n + length bs) d.

Module DataView.

Definition fits (d : list byte) (off : Z) (w : nat) : bool :=
  (0 <=? off) && (off + Z.of_nat w <=? Z.of_nat (length d)).

Definition get_bytes (d : list byte) (off : Z) (w : nat) : option (list byte) :=
  if fits d off w then Some (firstn w (skipn (Z.to_nat off) d)) else None.

Definition set_bytes (d : list byte) (off : Z) (bs : list byte)
  : option (list byte) :=
  if fits d off (length bs)
  then Some (splice (Z.to_nat off) bs d)
  else None.

Definition get_unsigned (w : nat) (d : list byte) (off : Z) : option Z :=
  option_map be_combine (get_bytes d off w).

Definition get_signed (w : nat) (d : list byte) (off : Z) : option Z :=
  option_map (to_signed (8 * Z.of_nat w)) (get_unsigned w d off).

Definition set_int (w : nat) (d : list byte) (off : Z) (v : Z)
  : option (list byte) :=
  set_bytes d off (be_split w v).

Definition getInt8 := get_signed 1.
Definition getUint8 := get_unsigned 1.
Definition getInt16 := get_signed 2.
Definition getInt32 := get_signed 4.
Definition getBigInt64 := get_signed 8.

Definition setInt8 := set_int 1.
Definition setInt16 := set_int 2.
Definition setInt32 := set_int 4.
Definition setBigInt64 := set_int 8.

(** Single-precision accessors.  The IEEE-754 conversions belong to the
    platform: [float32_bits f] is the binary32 encoding, as an unsigned
    32-bit integer, of the number [f] rounded to single precision, and
    [float32_of_bits] decodes such an encoding. *)
Section Float32.
Context {float : Type}.
Variable float32_of_bits : Z -> float.
Variable float32_bits : float -> Z.

Definition getFloat32 (d : list byte) (off : Z) : option float :=
  option_map float32_of_bits (get_unsigned 4 d off).

Definition setFloat32 (d : list byte) (off : Z) (f : float)
  : option (list byte) :=
  set_int 4 d off (float32_bits f).
End Float32.

End DataView.

(** ** The object and its methods *)

Record ByteBuf : Type := mkByteBuf {
  readerIndex : Z;
  writerIndex : Z;
  data : list byte
}.

(** Outcome of a method call: the returned value or a thrown [RangeError],
    with the state of the object at that point. *)
Inductive result (A : Type) : Type :=
| Ok (a : A) (st : ByteBuf)
| RangeError (st : ByteBuf).
Arguments Ok {A} a st.
Arguments RangeError {A} st.

Definition state_of {A} (r : result A) : ByteBuf :=
  match r with Ok _ st => st | RangeError st => st end.

Definition value_of {A} (r : result A) : option A :=
  match r with Ok a _ => Some a | RangeError _ => None end.

Definition M (A : Type) : Type := ByteBuf -> result A.

Definition ret {A} (a : A) : M A := fun st => Ok a st.

Definition bind {A B} (m : M A) (f : A -> M B) : M B :=
  fun st =>
    match m st with
    | Ok a st' => f a st'
    | RangeError st' => RangeError st'
    end.

Notation "x <- m ;; k" := (bind m (fun x => k))
  (at level 61, m at next level, right associativity).
Notation "m ;;; k" := (bind m (fun _ => k))
  (at level 61, right associativity).

(** Field accesses [this.readerIndex], [this.writerIndex], and their
    compound assignments. *)
Definition get_readerIndex : M Z := fun st => Ok (readerIndex st) st.
Definition get_writerIndex : M Z := fun st => Ok (writerIndex st) st.

Definition put_readerIndex (i : Z) : M unit :=
  fun st => Ok tt (mkByteBuf i (writerIndex st) (data st)).
Definition put_writerIndex (i : Z) : M unit :=
  fun st => Ok tt (mkByteBuf (readerIndex st) i (data st)).

Definition add_readerIndex (k : Z) : M unit :=
  r <- get_readerIndex ;; put_readerIndex (r + k).
Definition add_writerIndex (k : Z) : M unit :=
  w <- get_writerIndex ;; put_writerIndex (w + k).

(** Calls [this.data.getX(off)] and [this.data.setX(off, v)]. *)
Definition view_get {A} (f : list byte -> option A) : M A :=
  fun st =>
    match f (data st) with
    | Some a => Ok a st
    | None => RangeError st
    end.

Definition view_set (f : list byte -> option (list byte)) : M unit :=
  fun st =>
    match f (data st) with
    | Some d => Ok tt (mkByteBuf (readerIndex st) (writerIndex st) d)
    | None => RangeError st
    end.

(** Constructors.  A [Uint8Array] is taken as the whole buffer it views. *)
Definition new_ByteBuf (d : list byte) : ByteBuf := mkByteBuf 0 0 d.
Definition emptyBuffer (size : nat) : ByteBuf := new_ByteBuf (repeat x00 size).
Definition from_uint8 (buffer : list byte) : ByteBuf := new_ByteBuf buffer.

(** A JavaScript string: its UTF-16 code units. *)
Definition jsstring : Type := list Z.

(** The code units of a literal of ASCII characters. *)
Definition js_of_string (s : String.string) : jsstring :=
  map (fun a => Z.of_nat (Ascii.nat_of_ascii a)) (String.list_ascii_of_string s).

(** Largest length a string has in any engine (2^31 - 1 in JavaScriptCore,
    less in V8 and SpiderMonkey). *)
Definition max_string_length : Z := 2 ^ 31 - 1.

Definition readBool : M bool :=
  add_readerIndex 1 ;;;
  r <- get_readerIndex ;;
  v <- view_get (fun d => DataView.getInt8 d (r - 1)) ;;
  ret (v =? 1).

Definition readByteSigned : M Z :=
  add_readerIndex 1 ;;;
  r <- get_readerIndex ;;
  view_get (fun d => DataView.getInt8 d (r - 1)).

Definition readByteUnsigned : M Z :=
  add_readerIndex 1 ;;;
  r <- get_readerIndex ;;
  v <- view_get (fun d => DataView.getInt8 d (r - 1)) ;;
  ret (v + 128).

Definition readShort : M Z :=
  add_readerIndex 2 ;;;
  r <- get_readerIndex ;;
  view_get (fun d => DataView.getInt16 d (r - 2)).

Definition readInt : M Z :=
  add_readerIndex 4 ;;;
  r <- get_readerIndex ;;
  view_get (fun d => DataView.getInt32 d (r - 4)).

Definition readLong : M Z :=
  add_readerIndex 8 ;;;
  r <- get_readerIndex ;;
  view_get (fun d => DataView.getBigInt64 d (r - 8)).

(** The loop of [readByteString]: [k] iterations are left, [i] is the loop
    counter and [s] the string built so far. *)
Fixpoint read_chars (k : nat) (i : Z) (s : jsstring) : M jsstring :=
  match k with
  | O => ret s
  | S k' =>
      r <- get_readerIndex ;;
      c <- view_get (fun d => DataView.getUint8 d (r + i)) ;;
      read_chars k' (i + 1) (s ++ [c])
  end.

(** [for (i = 0; i < n; i++)] runs [n] times, and not at all when [n <= 0]. *)
Definition readByteString : M jsstring :=
  n <- readInt ;;
  s <- read_chars (Z.to_nat n) 0 [] ;;
  add_readerIndex n ;;;
  ret s.

Definition writeBool (b : bool) : M unit :=
  w <- get_writerIndex ;;
  view_set (fun d => DataView.setInt8 d w (if b then 1 else 0)) ;;;
  add_writerIndex 1.

Definition writeByteSigned (b : Z) : M unit :=
  w <- get_writerIndex ;;
  view_set (fun d => DataView.setInt8 d w b) ;;;
  add_writerIndex 1.

Definition writeByteUnsigned (b : Z) : M unit :=
  w <- get_writerIndex ;;
  view_set (fun d => DataView.setInt8 d w (b - 128)) ;;;
  add_writerIndex 1.

Definition writeShort (s : Z) : M unit :=
  w <- get_writerIndex ;;
  view_set (fun d => DataView.setInt16 d w s) ;;;
  add_writerIndex 2.

Definition writeInt (i : Z) : M unit :=
  w <- get_writerIndex ;;
  view_set (fun d => DataView.setInt32 d w i) ;;;
  add_writerIndex 4.

Definition writeLong (l : Z) : M unit :=
  w <- get_writerIndex ;;
  view_set (fun d => DataView.setBigInt64 d w l) ;;;
  add_writerIndex 8.

(** The loop of [writeByteString], over the code units still to write. *)
Fixpoint write_chars (s : jsstring) : M unit :=
  match s with
  | [] => ret tt
  | c :: s' => writeByteSigned c ;;; write_chars s'
  end.

Definition writeByteString (s : jsstring) : M unit :=
  writeInt (Z.of_nat (length s)) ;;;
  write_chars s.

Definition getReaderIndex : M Z := get_readerIndex.
Definition getWriterIndex : M Z := get_writerIndex.
Definition setReaderIndex (i : Z) : M unit := put_readerIndex i.
Definition setWriterIndex (i : Z) : M unit := put_writerIndex i.
Definition skipReader (s : Z) : M unit := add_readerIndex s.
Definition skipWriter (s : Z) : M unit := add_writerIndex s.
Definition bytes : M (list byte) := fun st => Ok (data st) st.

(** The common shape of the integer methods: a [w]-byte signed read at the
    read cursor and a [w]-byte write at the write cursor.  Each integer
    method above unfolds to one of them. *)
Definition read_fixed (w : nat) : M Z :=
  add_readerIndex (Z.of_nat w) ;;;
  r <- get_readerIndex ;;
  view_get (fun d => DataView.get_signed w d (r - Z.of_nat w)).

Definition write_fixed (w : nat) (v : Z) : M unit :=
  i <- get_writerIndex ;;
  view_set (fun d => DataView.set_int w d i v) ;;;
  add_writerIndex (Z.of_nat w).

(** ** Method calls and runs

    The methods that take or return a floating-point number, and the type
    of all calls a client can make, over the platform's conversions. *)

Section Calls.
Context {float : Type}.
Variable float32_of_bits : Z -> float.
Variable float32_bits : float -> Z.

Definition readFloat : M float :=
  add_readerIndex 4 ;;;
  r <- get_readerIndex ;;
  view_get (fun d => DataView.getFloat32 float32_of_bits d (r - 4)).

Definition writeFloat (f : float) : M unit :=
  w <- get_writerIndex ;;
  view_set (fun d => DataView.setFloat32 float32_bits d w f) ;;;
  add_writerIndex 4.

Inductive call : Type :=
| ReadBool | ReadByteSigned | ReadByteUnsigned | ReadShort | ReadFloat
| ReadInt | ReadLong | ReadByteString
| WriteBool (b : bool) | WriteByteSigned (b : Z) | WriteByteUnsigned (b : Z)
| WriteShort (s : Z) | WriteFloat (f : float) | WriteInt (i : Z)
| WriteLong (l : Z) | WriteByteString (s : jsstring)
| GetReaderIndex | GetWriterIndex
| SetReaderIndex (i : Z) | SetWriterIndex (i : Z)
| SkipReader (s : Z) | SkipWriter (s : Z)
| Bytes.

(** The object after a call, whether the call returned or threw. *)
Definition exec (c : call) (st : ByteBuf) : ByteBuf :=
  match c with
  | ReadBool => state_of (readBool st)
  | ReadByteSigned => state_of (readByteSigned st)
  | ReadByteUnsigned => state_of (readByteUnsigned st)
  | ReadShort => state_of (readShort st)
  | ReadFloat => state_of (readFloat st)
  | ReadInt => state_of (readInt st)
  | ReadLong => state_of (readLong st)
  | ReadByteString => state_of (readByteString st)
  | WriteBool b => state_of (writeBool b st)
  | WriteByteSigned b => state_of (writeByteSigned b st)
  | WriteByteUnsigned b => state_of (writeByteUnsigned b st)
  | WriteShort s => state_of (writeShort s st)
  | WriteFloat f => state_of (writeFloat f st)
  | WriteInt i => state_of (writeInt i st)
  | WriteLong l => state_of (writeLong l st)
  | WriteByteString s => state_of (writeByteString s st)
  | GetReaderIndex => state_of (getReaderIndex st)
  | GetWriterIndex => state_of (getWriterIndex st)
  | SetReaderIndex i => state_of (setReaderIndex i st)
  | SetWriterIndex i => state_of (setWriterIndex i st)
  | SkipReader s => state_of (skipReader s st)
  | SkipWriter s => state_of (skipWriter s st)
  | Bytes => state_of (bytes st)
  end.

(** The object after a sequence of calls, first call first. *)
Fixpoint run (cs : list call) (st : ByteBuf) : ByteBuf :=
  match cs with
  | [] => st
  | c :: cs' => run cs' (exec c st)
  end.




End Calls.
Arguments call : clear implicits.

(** ** Properties of methods used in the statements below *)

(** [write] with the write cursor at [P], then [read] with the read cursor
    at [P], returns [v]. *)
Definition round_trips {A} (write : M unit) (read : M A) (v : A) (P : Z)
    (st : ByteBuf) : Prop :=
  value_of ((setWriterIndex P ;;; write ;;; setReaderIndex P ;;; read) st)
  = Some v.

(** The byte at index [i] of the storage, if there is one. *)
Definition byte_at (st : ByteBuf) (i : Z) : option byte :=
  if 0 <=? i then nth_error (data st) (Z.to_nat i) else None.

(** Every call of [m] leaves the object in a state related to the one it
    started in, whether it returns or throws. *)
Definition relates (R : ByteBuf -> ByteBuf -> Prop) {A} (m : M A) : Prop :=
  forall st, R st (state_of (m st)).

Definition same_readerIndex (st st' : ByteBuf) : Prop :=
  readerIndex st' = readerIndex st.
Definition same_writerIndex (st st' : ByteBuf) : Prop :=
  writerIndex st' = writerIndex st.

(** The read cursor, respectively the write cursor, is [k] further after
    any call of [m], whether the call returns or throws. *)
Definition advances_reader {A} (m : M A) (k : Z) : Prop :=
  forall st, readerIndex (state_of (m st)) = readerIndex st + k.
Definition advances_writer {A} (m : M A) (k : Z) : Prop :=
  forall st, writerIndex (state_of (m st)) = writerIndex st + k.

(** A call of [m] returns with the write cursor [k] further when the [k]
    bytes at the write cursor lie within the storage, and otherwise throws
    and leaves the object as it was. *)
Definition advances_writer_within (m : M unit) (k : nat) : Prop :=
  forall st,
    if DataView.fits (data st) (writerIndex st) k
    then (exists st', m st = Ok tt st' /\
                      writerIndex st' = writerIndex st + Z.of_nat k)
    else (m st = RangeError st).

(** No cursor of [st'] is behind the same cursor of [st]. *)
Definition no_rewind (st st' : ByteBuf) : Prop :=
  readerIndex st <= readerIndex st' /\ writerIndex st <= writerIndex st'.

(** For closed examples a number that passes through a float32 slot is
    represented by the bit pattern of its binary32 encoding. *)
Definition bits_of_bits (z : Z) : Z := z mod 2 ^ 32.

(** ** Storage, domains and sequences of values

    Relations and programs used to state what the methods do to the
    storage and how they compose. *)

Definition same_data (st st' : ByteBuf) : Prop := data st' = data st.

Definition same_length (st st' : ByteBuf) : Prop :=
  length (data st') = length (data st).

(** The calls that store into the DataView. *)
Definition writes_storage {float : Type} (c : call float) : bool :=
  match c with
  | WriteBool _ | WriteByteSigned _ | WriteByteUnsigned _ | WriteShort _
  | WriteFloat _ | WriteInt _ | WriteLong _ | WriteByteString _ => true
  | _ => false
  end.

(** The integer of [bits] bits congruent to [v] modulo 2^bits. *)
Definition wrap_signed (bits v : Z) : Z :=
  (v + 2 ^ (bits - 1)) mod 2 ^ bits - 2 ^ (bits - 1).

(** Number of bytes between the write cursor and the end of the storage. *)
Definition room (st : ByteBuf) : nat :=
  if DataView.fits (data st) (writerIndex st) 0
  then (length (data st) - Z.to_nat (writerIndex st))%nat
  else 0%nat.

(** A client that writes a sequence of values with the write methods and
    reads a sequence of values back with the read methods. *)
Inductive kind : Type :=
| KBool | KByteSigned | KByteUnsigned | KShort | KInt | KLong | KByteString.

Inductive item : Type :=
| IBool (b : bool)
| IByteSigned (v : Z)
| IByteUnsigned (v : Z)
| IShort (v : Z)
| IInt (v : Z)
| ILong (v : Z)
| IByteString (s : jsstring).

Definition kind_of (it : item) : kind :=
  match it with
  | IBool _ => KBool
  | IByteSigned _ => KByteSigned
  | IByteUnsigned _ => KByteUnsigned
  | IShort _ => KShort
  | IInt _ => KInt
  | ILong _ => KLong
  | IByteString _ => KByteString
  end.

Definition write_item (it : item) : M unit :=
  match it with
  | IBool b => writeBool b
  | IByteSigned v => writeByteSigned v
  | IByteUnsigned v => writeByteUnsigned v
  | IShort v => writeShort v
  | IInt v => writeInt v
  | ILong v => writeLong v
  | IByteString s => writeByteString s
  end.

Definition read_kind (k : kind) : M item :=
  match k with
  | KBool => b <- readBool ;; ret (IBool b)
  | KByteSigned => v <- readByteSigned ;; ret (IByteSigned v)
  | KByteUnsigned => v <- readByteUnsigned ;; ret (IByteUnsigned v)
  | KShort => v <- readShort ;; ret (IShort v)
  | KInt => v <- readInt ;; ret (IInt v)
  | KLong => v <- readLong ;; ret (ILong v)
  | KByteString => s <- readByteString ;; ret (IByteString s)
  end.

Fixpoint write_items (its : list item) : M unit :=
  match its with
  | [] => ret tt
  | it :: its' => write_item it ;;; write_items its'
  end.

Fixpoint read_kinds (ks : list kind) : M (list item) :=
  match ks with
  | [] => ret []
  | k :: ks' => x <- read_kind k ;; xs <- read_kinds ks' ;; ret (x :: xs)
  end.

(** The values of each type's range. *)
Definition in_domain (it : item) : Prop :=
  match it with
  | IBool _ => True
  | IByteSigned v => - 2 ^ 7 <= v < 2 ^ 7
  | IByteUnsigned v => 0 <= v <= 255
  | IShort v => - 2 ^ 15 <= v < 2 ^ 15
  | IInt v => - 2 ^ 31 <= v < 2 ^ 31
  | ILong v => - 2 ^ 63 <= v < 2 ^ 63
  | IByteString s =>
      Forall (fun c => 0 <= c <= 255) s /\
      Z.of_nat (length s) <= max_string_length
  end.

(** The bytes a write of the value stores, and their number. *)
Definition encode (it : item) : list byte :=
  match it with
  | IBool b => be_split 1 (if b then 1 else 0)
  | IByteSigned v => be_split 1 v
  | IByteUnsigned v => be_split 1 (v - 128)
  | IShort v => be_split 2 v
  | IInt v => be_split 4 v
  | ILong v => be_split 8 v
  | IByteString s => be_split 4 (Z.of_nat (length s)) ++ map byte_of_Z s
  end.

Definition size_of (it : item) : nat :=
  match it with
  | IBool _ | IByteSigned _ | IByteUnsigned _ => 1
  | IShort _ => 2
  | IInt _ => 4
  | ILong _ => 8
  | IByteString s => 4 + length s
  end.

Definition total_size (its : list item) : nat :=
  fold_right (fun it n => (size_of it + n)%nat) 0%nat its.

(** Bytes a read of each kind needs at least, and what it returns from
    storage that holds only zero bytes. *)
Definition kind_size (k : kind) : nat :=
  match k with
  | KBool | KByteSigned | KByteUnsigned => 1
  | KShort => 2
  | KInt | KByteString => 4
  | KLong => 8
  end.

Definition zero_item (k : kind) : item :=
  match k with
  | KBool => IBool false
  | KByteSigned => IByteSigned 0
  | KByteUnsigned => IByteUnsigned 128
  | KShort => IShort 0
  | KInt => IInt 0
  | KLong => ILong 0
  | KByteString => IByteString []
  end.

(** ** Exact number arithmetic

    The cursors and the number arguments are JavaScript numbers, and the
    class adds to them and subtracts from them.  On the safe integers
    ([Number.isSafeInteger]) these operations are the integer ones; beyond
    them a sum is rounded (2^53 + 1 is 2^53).  A statement about the value
    of a sum or a difference of numbers is therefore made for operands and
    result among the safe integers. *)
Definition safe_integer (z : Z) : Prop :=
  - (2 ^ 53 - 1) <= z <= 2 ^ 53 - 1.

(** From a read cursor, respectively a write cursor, that is a safe
    integer and stays one [k] further, the cursor is [k] further after any
    call of [m], whether the call returns or throws. *)
Definition advances_reader_safe {A} (m : M A) (k : Z) : Prop :=
  forall st,
    safe_integer (readerIndex st) -> safe_integer (readerIndex st + k) ->
    readerIndex (state_of (m st)) = readerIndex st + k.
Definition advances_writer_safe {A} (m : M A) (k : Z) : Prop :=
  forall st,
    safe_integer (writerIndex st) -> safe_integer (writerIndex st + k) ->
    writerIndex (state_of (m st)) = writerIndex st + k.

(** * Properties *)

(** ** Bytes and big-endian integers *)

Lemma byte_to_Z_range (b : byte) : 0 <= byte_to_Z b < 256.
Proof.
  unfold byte_to_Z. pose proof (Byte.to_N_bounded b). lia.
Qed.

Lemma byte_to_of_Z (z : Z) : byte_to_Z (byte_of_Z z) = z mod 256.
Proof.
  unfold byte_to_Z, byte_of_Z.
  pose proof (Z.mod_pos_bound z 256 ltac:(lia)) as Hm.
  destruct (Byte.of_N (Z.to_N (z mod 256))) as [b|] eqn:E.
  - apply Byte.to_of_N in E. rewrite E. lia.
  - apply Byte.of_N_None_iff in E. lia.
Qed.

Lemma byte_of_to_Z (b : byte) : byte_of_Z (byte_to_Z b) = b.
Proof.
  pose proof (byte_to_Z_range b) as Hr.
  unfold byte_of_Z. rewrite Z.mod_small by exact Hr.
  unfold byte_to_Z. rewrite N2Z.id, Byte.of_to_N. reflexivity.
Qed.

Lemma length_be_split (w : nat) (z : Z) : length (be_split w z) = w.
Proof.
  induction w as [|w IH]; simpl; [reflexivity | now rewrite IH].
Qed.

Lemma be_combine_split (w : nat) (z : Z) :
  be_combine (be_split w z) = z mod 2 ^ (8 * Z.of_nat w).
Proof.
  induction w as [|w IH].
  - simpl. now rewrite Z.mod_1_r.
  - cbn [be_split be_combine]. rewrite length_be_split, IH, byte_to_of_Z.
    replace (8 * Z.of_nat (S w)) with (8 * Z.of_nat w + 8) by lia.
    rewrite Z.pow_add_r by lia.
    change (2 ^ 8) with 256.
    rewrite (Z.rem_mul_r z (2 ^ (8 * Z.of_nat w)) 256) by lia.
    lia.
Qed.

Lemma to_signed_wrap (bits z : Z) :
  0 < bits -> - 2 ^ (bits - 1) <= z < 2 ^ (bits - 1) ->
  to_signed bits (z mod 2 ^ bits) = z.
Proof.
  intros Hb Hz. unfold to_signed.
  assert (Hp : 2 ^ bits = 2 * 2 ^ (bits - 1)).
  { replace bits with (bits - 1 + 1) at 1 by lia.
    rewrite Z.pow_add_r by lia. lia. }
  destruct (Z_lt_le_dec z 0) as [Hneg|Hpos].
  - assert (E : z mod 2 ^ bits = z + 2 ^ bits).
    { symmetry. apply (Z.mod_unique _ _ (-1)); lia. }
    rewrite E. destruct (Z.ltb_spec (z + 2 ^ bits) (2 ^ (bits - 1))); lia.
  - rewrite Z.mod_small by lia.
    destruct (Z.ltb_spec z (2 ^ (bits - 1))); lia.
Qed.

(** ** Storing and fetching a run of bytes *)

Lemma length_splice (n : nat) (bs d : list byte) :
  (n + length bs <= length d)%nat -> length (splice n bs d) = length d.
Proof.
  intros H. unfold splice.
  rewrite !length_app, length_firstn, length_skipn. lia.
Qed.

Lemma slice_splice (n : nat) (bs d : list byte) :
  (n + length bs <= length d)%nat ->
  firstn (length bs) (skipn n (splice n bs d)) = bs.
Proof.
  intros H. unfold splice.
  assert (Hn : length (firstn n d) = n) by (rewrite length_firstn; lia).
  rewrite skipn_app, Hn, Nat.sub_diag. cbn [skipn].
  rewrite skipn_all2 by lia. cbn [app].
  rewrite firstn_app, Nat.sub_diag, firstn_all. cbn [firstn].
  now rewrite app_nil_r.
Qed.

Lemma splice_app (n : nat) (a b d : list byte) :
  (n + length a + length b <= length d)%nat ->
  splice (n + length a) b (splice n a d) = splice n (a ++ b) d.
Proof.
  intros H. unfold splice.
  assert (Hn : length (firstn n d) = n) by (rewrite length_firstn; lia).
  rewrite (app_assoc (firstn n d) a).
  assert (Hl : length (firstn n d ++ a) = (n + length a)%nat)
    by (rewrite length_app; lia).
  rewrite firstn_app, Hl, Nat.sub_diag. cbn [firstn]. rewrite app_nil_r.
  rewrite <- Hl at 1. rewrite firstn_all.
  rewrite skipn_app, Hl.
  rewrite (@skipn_all2 _ _ (firstn n d ++ a)) by lia. cbn [app].
  replace (n + length a + length b - (n + length a))%nat with (length b) by lia.
  rewrite skipn_skipn, length_app.
  replace (length b + (n + length a))%nat with (n + (length a + length b))%nat by lia.
  now rewrite <- !app_assoc.
Qed.

Lemma nth_error_splice (n i : nat) (bs d : list byte) :
  (n + length bs <= length d)%nat ->
  (i < length bs)%nat ->
  nth_error (splice n bs d) (n + i) = nth_error bs i.
Proof.
  intros H Hi. unfold splice.
  assert (Hn : length (firstn n d) = n) by (rewrite length_firstn; lia).
  rewrite nth_error_app2 by lia. rewrite Hn.
  replace (n + i - n)%nat with i by lia.
  now rewrite nth_error_app1 by lia.
Qed.

(** ** The DataView accessors *)

Lemma fits_true (d : list byte) (off : Z) (w : nat) :
  DataView.fits d off w = true <->
  0 <= off /\ off + Z.of_nat w <= Z.of_nat (length d).
Proof.
  unfold DataView.fits. rewrite andb_true_iff, !Z.leb_le. tauto.
Qed.

Lemma fits_le (d : list byte) (off : Z) (w w' : nat) :
  (w' <= w)%nat -> DataView.fits d off w = true -> DataView.fits d off w' = true.
Proof.
  rewrite !fits_true. lia.
Qed.

Lemma set_int_fits (w : nat) (d : list byte) (off v : Z) :
  DataView.fits d off w = true ->
  DataView.set_int w d off v = Some (splice (Z.to_nat off) (be_split w v) d).
Proof.
  intros H. unfold DataView.set_int, DataView.set_bytes.
  now rewrite length_be_split, H.
Qed.

Lemma set_int_throws (w : nat) (d : list byte) (off v : Z) :
  DataView.fits d off w = false -> DataView.set_int w d off v = None.
Proof.
  intros H. unfold DataView.set_int, DataView.set_bytes.
  now rewrite length_be_split, H.
Qed.

Lemma fits_splice (d bs : list byte) (n : nat) (off : Z) (w : nat) :
  (n + length bs <= length d)%nat ->
  DataView.fits (splice n bs d) off w = DataView.fits d off w.
Proof.
  intros H. unfold DataView.fits. now rewrite length_splice.
Qed.

Lemma get_bytes_splice (d bs : list byte) (off : Z) :
  DataView.fits d off (length bs) = true ->
  DataView.get_bytes (splice (Z.to_nat off) bs d) off (length bs) = Some bs.
Proof.
  intros H. pose proof H as H'. apply fits_true in H'.
  unfold DataView.get_bytes.
  rewrite fits_splice, H by lia.
  now rewrite slice_splice by lia.
Qed.

Lemma get_unsigned_set_int (w : nat) (d : list byte) (off v : Z) :
  DataView.fits d off w = true ->
  DataView.get_unsigned w (splice (Z.to_nat off) (be_split w v) d) off
  = Some (v mod 2 ^ (8 * Z.of_nat w)).
Proof.
  intros H. unfold DataView.get_unsigned.
  pose proof (get_bytes_splice d (be_split w v) off) as G.
  rewrite length_be_split in G. rewrite (G H). simpl.
  now rewrite be_combine_split.
Qed.

Lemma get_signed_set_int (w : nat) (d : list byte) (off v : Z) :
  DataView.fits d off w = true ->
  DataView.get_signed w (splice (Z.to_nat off) (be_split w v) d) off
  = Some (to_signed (8 * Z.of_nat w) (v mod 2 ^ (8 * Z.of_nat w))).
Proof.
  intros H. unfold DataView.get_signed.
  now rewrite get_unsigned_set_int.
Qed.

(** ** The fixed-width methods *)

Lemma write_fixed_fits (w : nat) (v : Z) (st : ByteBuf) :
  DataView.fits (data st) (writerIndex st) w = true ->
  write_fixed w v st
  = Ok tt (mkByteBuf (readerIndex st) (writerIndex st + Z.of_nat w)
             (splice (Z.to_nat (writerIndex st)) (be_split w v) (data st))).
Proof.
  intros H. unfold write_fixed, bind, get_writerIndex, view_set.
  now rewrite (set_int_fits _ _ _ _ H).
Qed.

Lemma write_fixed_throws (w : nat) (v : Z) (st : ByteBuf) :
  DataView.fits (data st) (writerIndex st) w = false ->
  write_fixed w v st = RangeError st.
Proof.
  intros H. unfold write_fixed, bind, get_writerIndex, view_set.
  now rewrite (set_int_throws _ _ _ _ H).
Qed.

Lemma read_fixed_unfold (w : nat) (st : ByteBuf) :
  read_fixed w st
  = let st' := mkByteBuf (readerIndex st + Z.of_nat w) (writerIndex st) (data st) in
    match DataView.get_signed w (data st) (readerIndex st) with
    | Some v => Ok v st'
    | None => RangeError st'
    end.
Proof.
  unfold read_fixed, bind, add_readerIndex, get_readerIndex, put_readerIndex,
    view_get, bind. cbn [readerIndex writerIndex data].
  now rewrite Z.add_simpl_r.
Qed.

Lemma write_then_seek {A} (k : M A) (w : nat) (v P : Z) (st : ByteBuf) :
  DataView.fits (data st) P w = true ->
  (setWriterIndex P ;;; write_fixed w v ;;; setReaderIndex P ;;; k) st
  = k (mkByteBuf P (P + Z.of_nat w)
         (splice (Z.to_nat P) (be_split w v) (data st))).
Proof.
  intros H.
  unfold bind at 1. unfold setWriterIndex, put_writerIndex.
  unfold bind at 1. rewrite write_fixed_fits by exact H.
  cbn [readerIndex writerIndex data].
  unfold bind at 1. unfold setReaderIndex, put_readerIndex.
  reflexivity.
Qed.

Lemma readBool_unfold (st : ByteBuf) :
  readBool st
  = let st' := mkByteBuf (readerIndex st + 1) (writerIndex st) (data st) in
    match DataView.getInt8 (data st) (readerIndex st) with
    | Some v => Ok (v =? 1) st'
    | None => RangeError st'
    end.
Proof.
  unfold readBool, bind, add_readerIndex, get_readerIndex, put_readerIndex,
    view_get, bind, ret. cbn [readerIndex writerIndex data].
  rewrite Z.add_simpl_r.
  now destruct (DataView.getInt8 (data st) (readerIndex st)).
Qed.

Lemma readByteUnsigned_unfold (st : ByteBuf) :
  readByteUnsigned st
  = let st' := mkByteBuf (readerIndex st + 1) (writerIndex st) (data st) in
    match DataView.getInt8 (data st) (readerIndex st) with
    | Some v => Ok (v + 128) st'
    | None => RangeError st'
    end.
Proof.
  unfold readByteUnsigned, bind, add_readerIndex, get_readerIndex,
    put_readerIndex, view_get, bind, ret. cbn [readerIndex writerIndex data].
  rewrite Z.add_simpl_r.
  now destruct (DataView.getInt8 (data st) (readerIndex st)).
Qed.

Lemma round_trip_fixed (w : nat) (v P : Z) (st : ByteBuf) :
  DataView.fits (data st) P w = true ->
  - 2 ^ (8 * Z.of_nat w - 1) <= v < 2 ^ (8 * Z.of_nat w - 1) ->
  (0 < w)%nat ->
  round_trips (write_fixed w v) (read_fixed w) v P st.
Proof.
  intros H Hv Hw. unfold round_trips.
  rewrite write_then_seek by exact H.
  rewrite read_fixed_unfold. cbn [readerIndex writerIndex data].
  rewrite get_signed_set_int by exact H. cbn [value_of].
  now rewrite to_signed_wrap by lia.
Qed.

(** ** Round trips of the fixed-width integer methods *)

(** C1, as stated, fails: with the cursors at the end of the storage, or
    below zero, [writeBool] throws and so does the [readBool] that follows,
    hence no value comes back. *)
Lemma round_trip_fails_outside_storage :
  let st0 := state_of (setWriterIndex 4 (emptyBuffer 4)) in
  let st1 := state_of (writeBool true st0) in
  let st2 := state_of (setReaderIndex 4 st1) in
  writeBool true st0 = RangeError st0 /\
  value_of (readBool st2) = None /\
  ~ round_trips (writeBool true) readBool true 4 (emptyBuffer 4) /\
  ~ round_trips (writeBool true) readBool true (-1) (emptyBuffer 4).
Proof.
  cbv zeta. repeat split; try reflexivity; unfold round_trips; discriminate.
Qed.

(** C1, amended: at every position [P] such that the value's bytes lie
    within the storage, writing a boolean, an int8, an int16, an int32 or
    an int64 of the type's range at [P] and reading at [P] returns it. *)
Theorem fixed_width_round_trip (st : ByteBuf) (P : Z) :
  (forall b : bool,
      DataView.fits (data st) P 1 = true ->
      round_trips (writeBool b) readBool b P st) /\
  (forall v : Z,
      DataView.fits (data st) P 1 = true -> - 2 ^ 7 <= v < 2 ^ 7 ->
      round_trips (writeByteSigned v) readByteSigned v P st) /\
  (forall v : Z,
      DataView.fits (data st) P 2 = true -> - 2 ^ 15 <= v < 2 ^ 15 ->
      round_trips (writeShort v) readShort v P st) /\
  (forall v : Z,
      DataView.fits (data st) P 4 = true -> - 2 ^ 31 <= v < 2 ^ 31 ->
      round_trips (writeInt v) readInt v P st) /\
  (forall v : Z,
      DataView.fits (data st) P 8 = true -> - 2 ^ 63 <= v < 2 ^ 63 ->
      round_trips (writeLong v) readLong v P st).
Proof.
  split; [| split; [| split; [| split]]].
  - intros b H. unfold round_trips.
    change (writeBool b) with (write_fixed 1 (if b then 1 else 0)).
    rewrite write_then_seek by exact H.
    rewrite readBool_unfold. cbn [readerIndex writerIndex data].
    unfold DataView.getInt8. rewrite get_signed_set_int by exact H.
    now destruct b.
  - intros v H Hv. apply (round_trip_fixed 1 v P st H); [exact Hv | lia].
  - intros v H Hv. apply (round_trip_fixed 2 v P st H); [exact Hv | lia].
  - intros v H Hv. apply (round_trip_fixed 4 v P st H); [exact Hv | lia].
  - intros v H Hv. apply (round_trip_fixed 8 v P st H); [exact Hv | lia].
Qed.

Lemma fixed_width_round_trip_witness :
  round_trips (writeBool true) readBool true 3 (emptyBuffer 16) /\
  round_trips (writeByteSigned (-128)) readByteSigned (-128) 15 (emptyBuffer 16) /\
  round_trips (writeShort (-2)) readShort (-2) 14 (emptyBuffer 16) /\
  round_trips (writeInt 1000) readInt 1000 0 (emptyBuffer 16) /\
  round_trips (writeLong (- 2 ^ 63)) readLong (- 2 ^ 63) 8 (emptyBuffer 16).
Proof.
  split; [| split; [| split; [| split]]].
  - destruct (fixed_width_round_trip (emptyBuffer 16) 3) as (H & _).
    apply H. reflexivity.
  - destruct (fixed_width_round_trip (emptyBuffer 16) 15) as (_ & H & _).
    apply H; [reflexivity | lia].
  - destruct (fixed_width_round_trip (emptyBuffer 16) 14) as (_ & _ & H & _).
    apply H; [reflexivity | lia].
  - destruct (fixed_width_round_trip (emptyBuffer 16) 0) as (_ & _ & _ & H & _).
    apply H; [reflexivity | lia].
  - destruct (fixed_width_round_trip (emptyBuffer 16) 8) as (_ & _ & _ & _ & H).
    apply H; [reflexivity | lia].
Defined.

(** ** The unsigned byte *)

Lemma nth_error_slice1 (d : list byte) (n : nat) (x : byte) :
  nth_error d n = Some x -> firstn 1 (skipn n d) = [x] /\ (n < length d)%nat.
Proof.
  revert d. induction n as [|n IH]; intros [|y d] E; try discriminate.
  - injection E as ->. split; [reflexivity | simpl; lia].
  - simpl in E. destruct (IH d E) as [F L]. split; [exact F | simpl; lia].
Qed.

Lemma getInt8_byte_at (st : ByteBuf) (i : Z) (x : byte) :
  byte_at st i = Some x ->
  DataView.getInt8 (data st) i = Some (to_signed 8 (byte_to_Z x)).
Proof.
  unfold byte_at. destruct (Z.leb_spec 0 i) as [Hi|Hi]; [|discriminate].
  intros E. destruct (nth_error_slice1 _ _ _ E) as [F L].
  unfold DataView.getInt8, DataView.get_signed, DataView.get_unsigned,
    DataView.get_bytes.
  assert (Hf : DataView.fits (data st) i 1 = true) by (apply fits_true; lia).
  rewrite Hf, F. cbn [option_map be_combine length].
  f_equal. f_equal. change (2 ^ (8 * Z.of_nat 0)) with 1. lia.
Qed.

Lemma byte_at_splice1 (d : list byte) (i : Z) (b : byte) (r w : Z) :
  DataView.fits d i 1 = true ->
  byte_at (mkByteBuf r w (splice (Z.to_nat i) [b] d)) i = Some b.
Proof.
  intros H. pose proof H as H'. apply fits_true in H'.
  unfold byte_at. cbn [data].
  destruct (Z.leb_spec 0 i); [|lia].
  pose proof (nth_error_splice (Z.to_nat i) 0 [b] d) as N.
  rewrite Nat.add_0_r in N. apply N; simpl; lia.
Qed.

(** C2, as stated, fails for the same reason as C1: outside the storage
    [writeByteUnsigned] throws, stores nothing, and the read throws. *)
Lemma uint8_round_trip_fails_outside_storage :
  let st0 := state_of (setWriterIndex 4 (emptyBuffer 4)) in
  let st1 := state_of (writeByteUnsigned 200 st0) in
  let st2 := state_of (setReaderIndex 4 st1) in
  writeByteUnsigned 200 st0 = RangeError st0 /\
  byte_at st1 4 = None /\
  value_of (readByteUnsigned st2) = None /\
  ~ round_trips (writeByteUnsigned 200) readByteUnsigned 200 4 (emptyBuffer 4).
Proof.
  cbv zeta. split; [reflexivity|]. split; [reflexivity|].
  split; [reflexivity|]. unfold round_trips. discriminate.
Qed.

(** C2, amended: for every [v] in 0..255 and every position [P] inside the
    storage, [writeByteUnsigned v] at [P] followed by [readByteUnsigned] at
    [P] returns [v], and the byte stored at [P] is the two's-complement
    byte of [v - 128]: read as a signed byte it is [v - 128]. *)
Theorem uint8_round_trip (st : ByteBuf) (P v : Z) :
  DataView.fits (data st) P 1 = true ->
  0 <= v <= 255 ->
  let st' := state_of ((setWriterIndex P ;;; writeByteUnsigned v) st) in
  round_trips (writeByteUnsigned v) readByteUnsigned v P st /\
  byte_at st' P = Some (byte_of_Z (v - 128)) /\
  DataView.getInt8 (data st') P = Some (v - 128).
Proof.
  intros H Hv st'.
  assert (Est : st' = mkByteBuf (readerIndex st) (P + 1)
                  (splice (Z.to_nat P) [byte_of_Z (v - 128)] (data st))).
  { subst st'. unfold bind at 1. unfold setWriterIndex, put_writerIndex.
    change (writeByteUnsigned v) with (write_fixed 1 (v - 128)).
    rewrite write_fixed_fits by exact H. cbn [state_of readerIndex writerIndex data be_split].
    f_equal. f_equal. f_equal. f_equal.
    change (2 ^ (8 * Z.of_nat 0)) with 1. now rewrite Z.div_1_r. }
  assert (Hs : to_signed 8 ((v - 128) mod 2 ^ 8) = v - 128)
    by (apply to_signed_wrap; simpl; lia).
  split; [| split].
  - unfold round_trips.
    change (writeByteUnsigned v) with (write_fixed 1 (v - 128)).
    rewrite write_then_seek by exact H.
    rewrite readByteUnsigned_unfold. cbn [readerIndex writerIndex data].
    unfold DataView.getInt8. rewrite get_signed_set_int by exact H.
    cbn [value_of]. f_equal.
    change (8 * Z.of_nat 1) with 8. rewrite Hs. lia.
  - rewrite Est. now apply byte_at_splice1.
  - rewrite (getInt8_byte_at st' P (byte_of_Z (v - 128))).
    + rewrite byte_to_of_Z. change 256 with (2 ^ 8). now rewrite Hs.
    + rewrite Est. now apply byte_at_splice1.
Qed.

Lemma uint8_round_trip_witness :
  let st' := state_of ((setWriterIndex 2 ;;; writeByteUnsigned 255) (emptyBuffer 4)) in
  round_trips (writeByteUnsigned 255) readByteUnsigned 255 2 (emptyBuffer 4) /\
  byte_at st' 2 = Some (byte_of_Z (255 - 128)) /\
  DataView.getInt8 (data st') 2 = Some (255 - 128).
Proof.
  apply (uint8_round_trip (emptyBuffer 4) 2 255); [reflexivity | lia].
Defined.

(** ** Booleans *)

Lemma to_signed_is_one (x : byte) :
  (to_signed 8 (byte_to_Z x) =? 1) = Byte.eqb x x01.
Proof.
  destruct x; reflexivity.
Qed.

Lemma getInt8_no_byte (st : ByteBuf) (i : Z) :
  byte_at st i = None -> DataView.getInt8 (data st) i = None.
Proof.
  unfold byte_at. intros E.
  assert (Hf : DataView.fits (data st) i 1 = false).
  { apply not_true_is_false. intros Hf. apply fits_true in Hf.
    destruct (Z.leb_spec 0 i); [|lia].
    apply nth_error_None in E. lia. }
  unfold DataView.getInt8, DataView.get_signed, DataView.get_unsigned,
    DataView.get_bytes.
  now rewrite Hf.
Qed.

(** C6: [writeBool true] stores the byte 1 and [writeBool false] the byte
    0, at the write cursor and nowhere else, and stores nothing when it
    throws; [readBool] returns [true] when the byte at the read cursor is 1
    and [false] for every other byte. *)
Theorem bool_encoding (st : ByteBuf) (b : bool) :
  (if DataView.fits (data st) (writerIndex st) 1
   then exists st',
       writeBool b st = Ok tt st' /\
       data st' = splice (Z.to_nat (writerIndex st))
                    [if b then x01 else x00] (data st) /\
       byte_at st' (writerIndex st) = Some (if b then x01 else x00)
   else writeBool b st = RangeError st) /\
  value_of (readBool st)
  = option_map (fun x => Byte.eqb x x01) (byte_at st (readerIndex st)).
Proof.
  split.
  - change (writeBool b) with (write_fixed 1 (if b then 1 else 0)).
    destruct (DataView.fits (data st) (writerIndex st) 1) eqn:Hw.
    + rewrite write_fixed_fits by exact Hw.
      assert (E : be_split 1 (if b then 1 else 0) = [if b then x01 else x00])
        by now destruct b.
      rewrite E. eexists. split; [reflexivity|]. split; [reflexivity|].
      now apply byte_at_splice1.
    + now apply write_fixed_throws.
  - rewrite readBool_unfold. cbv zeta.
    destruct (byte_at st (readerIndex st)) as [x|] eqn:Hr.
    + rewrite (getInt8_byte_at st _ x Hr). cbn [value_of option_map].
      now rewrite to_signed_is_one.
    + now rewrite (getInt8_no_byte st _ Hr).
Qed.

(** ** What a call leaves alone *)

Section Relates.
Variable R : ByteBuf -> ByteBuf -> Prop.
Hypothesis R_refl : forall st, R st st.
Hypothesis R_trans : forall a b c, R a b -> R b c -> R a c.

Lemma relates_ret {A} (a : A) : relates R (ret a).
Proof. intros st. apply R_refl. Qed.

Lemma relates_bind {A B} (m : M A) (f : A -> M B) :
  relates R m -> (forall a, relates R (f a)) -> relates R (bind m f).
Proof.
  intros Hm Hf st. unfold bind. specialize (Hm st).
  destruct (m st) as [a st'|st']; cbn [state_of] in *.
  - eapply R_trans; [exact Hm | apply Hf].
  - exact Hm.
Qed.

Lemma relates_get_readerIndex : relates R get_readerIndex.
Proof. intros st. apply R_refl. Qed.

Lemma relates_get_writerIndex : relates R get_writerIndex.
Proof. intros st. apply R_refl. Qed.

Lemma relates_view_get {A} (f : list byte -> option A) :
  relates R (view_get f).
Proof.
  intros st. unfold view_get. destruct (f (data st)); apply R_refl.
Qed.

Lemma relates_read_chars (k : nat) (i : Z) (s : jsstring) :
  relates R (read_chars k i s).
Proof.
  revert i s. induction k as [|k IH]; intros i s; cbn [read_chars].
  - apply relates_ret.
  - apply relates_bind; [apply relates_get_readerIndex | intros r].
    apply relates_bind; [apply relates_view_get | intros c]. apply IH.
Qed.

Lemma relates_write_chars (s : jsstring) :
  (forall c, relates R (writeByteSigned c)) -> relates R (write_chars s).
Proof.
  intros Hw. induction s as [|c s IH]; cbn [write_chars].
  - apply relates_ret.
  - apply relates_bind; [apply Hw | intros _; exact IH].
Qed.
End Relates.

Lemma relates_view_set (R : ByteBuf -> ByteBuf -> Prop)
    (f : list byte -> option (list byte)) :
  (forall st d, R st (mkByteBuf (readerIndex st) (writerIndex st) d)) ->
  (forall st, R st st) ->
  relates R (view_set f).
Proof.
  intros Hd Hr st. unfold view_set. destruct (f (data st)); cbn; auto.
Qed.

Create HintDb frame.

Lemma same_readerIndex_refl st : same_readerIndex st st.
Proof. reflexivity. Qed.

Lemma same_readerIndex_trans a b c :
  same_readerIndex a b -> same_readerIndex b c -> same_readerIndex a c.
Proof. unfold same_readerIndex. congruence. Qed.

Lemma same_writerIndex_refl st : same_writerIndex st st.
Proof. reflexivity. Qed.

Lemma same_writerIndex_trans a b c :
  same_writerIndex a b -> same_writerIndex b c -> same_writerIndex a c.
Proof. unfold same_writerIndex. congruence. Qed.

Lemma put_writerIndex_same_readerIndex i :
  relates same_readerIndex (put_writerIndex i).
Proof. intros st. reflexivity. Qed.

Lemma put_readerIndex_same_writerIndex i :
  relates same_writerIndex (put_readerIndex i).
Proof. intros st. reflexivity. Qed.

Lemma view_set_same_readerIndex f : relates same_readerIndex (view_set f).
Proof. apply relates_view_set; reflexivity. Qed.

Lemma view_set_same_writerIndex f : relates same_writerIndex (view_set f).
Proof. apply relates_view_set; reflexivity. Qed.

#[local] Hint Resolve
  same_readerIndex_refl same_readerIndex_trans
  same_writerIndex_refl same_writerIndex_trans
  put_writerIndex_same_readerIndex put_readerIndex_same_writerIndex
  view_set_same_readerIndex view_set_same_writerIndex : frame.

(** Decomposes a method into its field accesses and DataView calls. *)
Ltac frame :=
  repeat
    match goal with
    | |- relates _ (bind _ _) => apply relates_bind; [ | | intro ]
    | |- relates _ (ret _) => apply relates_ret
    | |- relates _ get_readerIndex => apply relates_get_readerIndex
    | |- relates _ get_writerIndex => apply relates_get_writerIndex
    | |- relates _ (view_get _) => apply relates_view_get
    | |- relates _ (read_chars _ _ _) => apply relates_read_chars
    | |- relates _ (write_chars _) => apply relates_write_chars; [ | | intro ]
    | |- _ => solve [ eauto with frame ]
    end.

Section CursorIndependence.
Context {float : Type}.
Variable float32_of_bits : Z -> float.
Variable float32_bits : float -> Z.

(** C7: no write method, [skipWriter] and [setWriterIndex] included,
    changes the read cursor, and no read method, [skipReader] and
    [setReaderIndex] included, changes the write cursor; this holds
    also for a call that throws. *)
Theorem cursor_independence :
  ((forall b, relates same_readerIndex (writeBool b)) /\
   (forall b, relates same_readerIndex (writeByteSigned b)) /\
   (forall b, relates same_readerIndex (writeByteUnsigned b)) /\
   (forall s, relates same_readerIndex (writeShort s)) /\
   (forall f, relates same_readerIndex (writeFloat float32_bits f)) /\
   (forall i, relates same_readerIndex (writeInt i)) /\
   (forall l, relates same_readerIndex (writeLong l)) /\
   (forall s, relates same_readerIndex (writeByteString s)) /\
   (forall n, relates same_readerIndex (skipWriter n)) /\
   (forall i, relates same_readerIndex (setWriterIndex i))) /\
  (relates same_writerIndex readBool /\
   relates same_writerIndex readByteSigned /\
   relates same_writerIndex readByteUnsigned /\
   relates same_writerIndex readShort /\
   relates same_writerIndex (readFloat float32_of_bits) /\
   relates same_writerIndex readInt /\
   relates same_writerIndex readLong /\
   relates same_writerIndex readByteString /\
   (forall n, relates same_writerIndex (skipReader n)) /\
   (forall i, relates same_writerIndex (setReaderIndex i))).
Proof.
  split.
  - repeat match goal with |- _ /\ _ => split end; intros;
      unfold writeBool, writeByteSigned, writeByteUnsigned, writeShort,
        writeFloat, writeInt, writeLong, writeByteString, skipWriter,
        setWriterIndex, add_writerIndex; frame.
    all: unfold writeInt, writeByteSigned, add_writerIndex; frame.
  - repeat match goal with |- _ /\ _ => split end; intros;
      unfold readBool, readByteSigned, readByteUnsigned, readShort,
        readFloat, readInt, readLong, readByteString, skipReader,
        setReaderIndex, add_readerIndex; frame.
    all: unfold readInt, add_readerIndex; frame.
Qed.
End CursorIndependence.

(** ** Cursor advancement *)

Lemma read_fixed_advances (w : nat) : advances_reader (read_fixed w) (Z.of_nat w).
Proof.
  intros st. rewrite read_fixed_unfold. cbv zeta.
  now destruct (DataView.get_signed w (data st) (readerIndex st)).
Qed.

Lemma write_fixed_advances (w : nat) (v : Z) :
  advances_writer_within (write_fixed w v) w.
Proof.
  intros st.
  destruct (DataView.fits (data st) (writerIndex st) w) eqn:E.
  - rewrite write_fixed_fits by exact E. eexists. split; reflexivity.
  - now apply write_fixed_throws.
Qed.

(** C8, as stated, fails for the writes: on a buffer without room at the
    write cursor [writeBool] throws before the cursor is moved. *)
Lemma write_outside_storage_keeps_cursor :
  writeBool true (emptyBuffer 0) = RangeError (emptyBuffer 0) /\
  writerIndex (state_of (writeBool true (emptyBuffer 0)))
  <> writerIndex (emptyBuffer 0) + 1 /\
  ~ advances_writer (writeBool true) 1.
Proof.
  split; [reflexivity|]. split; [discriminate|].
  intros H. specialize (H (emptyBuffer 0)). discriminate H.
Qed.

Section CursorAdvancement.
Context {float : Type}.
Variable float32_of_bits : Z -> float.
Variable float32_bits : float -> Z.

Lemma readFloat_advances : advances_reader (readFloat float32_of_bits) 4.
Proof.
  intros st.
  unfold readFloat, bind, add_readerIndex, get_readerIndex,
    put_readerIndex, view_get, bind. cbn [readerIndex writerIndex data].
  now destruct (DataView.getFloat32 _ _ _).
Qed.

Lemma advances_reader_weaken {A} (m : M A) (k : Z) :
  advances_reader m k -> advances_reader_safe m k.
Proof. intros H st _ _. apply H. Qed.

(** C8, amended: every fixed-width read moves the read cursor by its
    width K, also when it throws, from every state whose read cursor is a
    safe integer and stays one K further; every fixed-width write moves
    the write cursor by K when the K bytes at the write cursor lie within
    the storage, and otherwise throws with the object unchanged;
    [skipReader n] and [skipWriter n] move their cursor by [n], negative
    [n] included, when [n], the cursor and the cursor moved by [n] are
    safe integers. *)
Theorem cursor_advancement :
  (advances_reader_safe readBool 1 /\
   advances_reader_safe readByteSigned 1 /\
   advances_reader_safe readByteUnsigned 1 /\
   advances_reader_safe readShort 2 /\
   advances_reader_safe (readFloat float32_of_bits) 4 /\
   advances_reader_safe readInt 4 /\
   advances_reader_safe readLong 8) /\
  ((forall b, advances_writer_within (writeBool b) 1) /\
   (forall b, advances_writer_within (writeByteSigned b) 1) /\
   (forall b, advances_writer_within (writeByteUnsigned b) 1) /\
   (forall s, advances_writer_within (writeShort s) 2) /\
   (forall f, advances_writer_within (writeFloat float32_bits f) 4) /\
   (forall i, advances_writer_within (writeInt i) 4) /\
   (forall l, advances_writer_within (writeLong l) 8)) /\
  (forall n, safe_integer n -> advances_reader_safe (skipReader n) n) /\
  (forall n, safe_integer n -> advances_writer_safe (skipWriter n) n).
Proof.
  split; [| split; [| split]].
  - split; [| split; [| split; [| split; [| split; [| split]]]]];
      apply advances_reader_weaken.
    + intros st. rewrite readBool_unfold. cbv zeta.
      now destruct (DataView.getInt8 _ _).
    + exact (read_fixed_advances 1).
    + intros st. rewrite readByteUnsigned_unfold. cbv zeta.
      now destruct (DataView.getInt8 _ _).
    + exact (read_fixed_advances 2).
    + exact readFloat_advances.
    + exact (read_fixed_advances 4).
    + exact (read_fixed_advances 8).
  - split; [| split; [| split; [| split; [| split; [| split]]]]].
    + intros b. exact (write_fixed_advances 1 (if b then 1 else 0)).
    + intros b. exact (write_fixed_advances 1 b).
    + intros b. exact (write_fixed_advances 1 (b - 128)).
    + intros v. exact (write_fixed_advances 2 v).
    + intros f. exact (write_fixed_advances 4 (float32_bits f)).
    + intros v. exact (write_fixed_advances 4 v).
    + intros v. exact (write_fixed_advances 8 v).
  - intros n _ st _ _. reflexivity.
  - intros n _ st _ _. reflexivity.
Qed.
End CursorAdvancement.

Lemma cursor_advancement_witness :
  readerIndex (state_of (readInt (emptyBuffer 2)))
  = readerIndex (emptyBuffer 2) + 4 /\
  writerIndex (state_of (skipWriter (-3) (emptyBuffer 2)))
  = writerIndex (emptyBuffer 2) + -3.
Proof.
  destruct (cursor_advancement (fun z => z) bits_of_bits)
    as ((_ & _ & _ & _ & _ & Hint & _) & _ & _ & Hskip).
  split.
  - apply Hint; unfold safe_integer; cbn; lia.
  - apply Hskip; unfold safe_integer; cbn; lia.
Defined.

(** ** Strings: the write side *)

Lemma be_split_1 (c : Z) : be_split 1 c = [byte_of_Z c].
Proof.
  cbn [be_split]. change (2 ^ (8 * Z.of_nat 0)) with 1.
  now rewrite Z.div_1_r.
Qed.

Lemma splice_nil (n : nat) (d : list byte) : splice n [] d = d.
Proof.
  unfold splice. cbn [length app]. rewrite Nat.add_0_r. apply firstn_skipn.
Qed.

Lemma skipn_splice (n : nat) (bs d : list byte) :
  (n + length bs <= length d)%nat ->
  skipn n (splice n bs d) = bs ++ skipn (n + length bs) d.
Proof.
  intros H. unfold splice.
  assert (Hn : length (firstn n d) = n) by (rewrite length_firstn; lia).
  rewrite skipn_app, Hn, Nat.sub_diag. cbn [skipn].
  now rewrite skipn_all2 by lia.
Qed.

Lemma writeByteSigned_fits (c : Z) (st : ByteBuf) :
  DataView.fits (data st) (writerIndex st) 1 = true ->
  writeByteSigned c st
  = Ok tt (mkByteBuf (readerIndex st) (writerIndex st + 1)
             (splice (Z.to_nat (writerIndex st)) [byte_of_Z c] (data st))).
Proof.
  intros H. change (writeByteSigned c) with (write_fixed 1 c).
  now rewrite write_fixed_fits, be_split_1 by exact H.
Qed.

Lemma write_chars_fits (s : jsstring) (st : ByteBuf) :
  DataView.fits (data st) (writerIndex st) (length s) = true ->
  write_chars s st
  = Ok tt (mkByteBuf (readerIndex st) (writerIndex st + Z.of_nat (length s))
             (splice (Z.to_nat (writerIndex st)) (map byte_of_Z s) (data st))).
Proof.
  revert st. induction s as [|c s IH]; intros [r w d] H;
    cbn [readerIndex writerIndex data] in *.
  - cbn [write_chars ret map length]. now rewrite splice_nil, Z.add_0_r.
  - pose proof H as H'. apply fits_true in H'. cbn [length] in H'.
    cbn [write_chars]. unfold bind.
    rewrite writeByteSigned_fits by (apply fits_true; cbn; lia).
    cbn [readerIndex writerIndex data].
    rewrite IH; cbn [readerIndex writerIndex data].
    + f_equal. f_equal; [cbn [length]; lia|].
      replace (Z.to_nat (w + 1)) with (Z.to_nat w + length [byte_of_Z c])%nat
        by (cbn [length]; lia).
      rewrite splice_app by (cbn [length]; rewrite length_map; lia).
      reflexivity.
    + apply fits_true. rewrite length_splice by (cbn [length]; lia). lia.
Qed.

Lemma writeByteString_fits (s : jsstring) (st : ByteBuf) :
  DataView.fits (data st) (writerIndex st) (4 + length s) = true ->
  writeByteString s st
  = Ok tt (mkByteBuf (readerIndex st)
             (writerIndex st + 4 + Z.of_nat (length s))
             (splice (Z.to_nat (writerIndex st))
                (be_split 4 (Z.of_nat (length s)) ++ map byte_of_Z s)
                (data st))).
Proof.
  intros H. pose proof H as H'. apply fits_true in H'.
  unfold writeByteString, bind.
  change (writeInt (Z.of_nat (length s)))
    with (write_fixed 4 (Z.of_nat (length s))).
  rewrite write_fixed_fits by (apply fits_true; lia).
  set (a := be_split 4 (Z.of_nat (length s))).
  assert (La : length a = 4%nat) by apply length_be_split.
  rewrite write_chars_fits; cbn [readerIndex writerIndex data].
  - f_equal. f_equal.
    replace (Z.to_nat (writerIndex st + Z.of_nat 4))
      with (Z.to_nat (writerIndex st) + length a)%nat by lia.
    rewrite splice_app by (rewrite length_map; lia).
    reflexivity.
  - apply fits_true. rewrite length_splice by lia. lia.
Qed.

(** ** Strings: the read side *)

Lemma skipn_cons (d : list byte) (n : nat) :
  (n < length d)%nat -> exists x, skipn n d = x :: skipn (S n) d.
Proof.
  revert d. induction n as [|n IH]; intros [|y d] H; cbn [length] in H;
    try lia.
  - exists y. reflexivity.
  - destruct (IH d ltac:(lia)) as [x E]. exists x. exact E.
Qed.

Lemma getUint8_head (d : list byte) (off : Z) (x : byte) (rest : list byte) :
  DataView.fits d off 1 = true ->
  skipn (Z.to_nat off) d = x :: rest ->
  DataView.getUint8 d off = Some (byte_to_Z x).
Proof.
  intros H E.
  unfold DataView.getUint8, DataView.get_unsigned, DataView.get_bytes.
  rewrite H, E. cbn [firstn option_map be_combine length].
  f_equal. change (2 ^ (8 * Z.of_nat 0)) with 1. lia.
Qed.

Lemma read_chars_fits (k : nat) (i : Z) (acc : jsstring) (st : ByteBuf) :
  DataView.fits (data st) (readerIndex st + i) k = true ->
  read_chars k i acc st
  = Ok (acc ++ map byte_to_Z
                 (firstn k (skipn (Z.to_nat (readerIndex st + i)) (data st))))
       st.
Proof.
  revert i acc. induction k as [|k IH]; intros i acc H.
  - cbn [read_chars ret firstn map]. now rewrite app_nil_r.
  - pose proof H as H'. apply fits_true in H'.
    destruct (skipn_cons (data st) (Z.to_nat (readerIndex st + i)))
      as [x E]; [lia|].
    cbn [read_chars]. unfold bind at 1. unfold get_readerIndex.
    unfold bind at 1. unfold view_get.
    rewrite (getUint8_head _ _ x _ (fits_le _ _ (S k) 1 ltac:(lia) H) E).
    rewrite IH by (apply fits_true; lia).
    rewrite E. cbn [firstn map].
    replace (Z.to_nat (readerIndex st + (i + 1)))
      with (S (Z.to_nat (readerIndex st + i))) by lia.
    now rewrite <- app_assoc.
Qed.

Lemma read_chars_state (k : nat) (i : Z) (acc : jsstring) (st : ByteBuf) :
  state_of (read_chars k i acc st) = st.
Proof.
  apply (relates_read_chars (fun a b => b = a)); congruence.
Qed.

Lemma readByteString_unfold (st : ByteBuf) :
  readByteString st
  = let st1 := mkByteBuf (readerIndex st + 4) (writerIndex st) (data st) in
    match DataView.getInt32 (data st) (readerIndex st) with
    | None => RangeError st1
    | Some n =>
        match read_chars (Z.to_nat n) 0 [] st1 with
        | Ok s _ =>
            Ok s (mkByteBuf (readerIndex st + 4 + n) (writerIndex st) (data st))
        | RangeError _ => RangeError st1
        end
    end.
Proof.
  cbv zeta. unfold readByteString. unfold bind at 1.
  change readInt with (read_fixed 4). rewrite read_fixed_unfold. cbv zeta.
  change (DataView.get_signed 4) with DataView.getInt32.
  change (Z.of_nat 4) with 4.
  destruct (DataView.getInt32 (data st) (readerIndex st)) as [n|];
    [|reflexivity].
  unfold bind at 1.
  pose proof (read_chars_state (Z.to_nat n) 0 []
                (mkByteBuf (readerIndex st + 4) (writerIndex st) (data st)))
    as Hs.
  destruct (read_chars (Z.to_nat n) 0 [] _) as [s st'|st'];
    cbn [state_of] in Hs; subst st'; reflexivity.
Qed.

(** C5: when the four bytes at the read cursor decode to a negative length
    [N], [readByteString] throws nothing, returns the empty string, and
    leaves the read cursor at [readerIndex + 4 + N], below the end of the
    prefix; the write cursor and the storage are as before. *)
Theorem negative_length_prefix (st : ByteBuf) (N : Z) :
  DataView.getInt32 (data st) (readerIndex st) = Some N ->
  N < 0 ->
  readByteString st
  = Ok [] (mkByteBuf (readerIndex st + 4 + N) (writerIndex st) (data st)) /\
  readerIndex st + 4 + N < readerIndex st + 4.
Proof.
  intros HN Hneg. split; [|lia].
  rewrite readByteString_unfold. cbv zeta. rewrite HN.
  replace (Z.to_nat N) with 0%nat by lia. reflexivity.
Qed.

Lemma negative_length_prefix_witness :
  let st := from_uint8 [xff; xff; xff; xfe; x41; x42] in
  readByteString st
  = Ok [] (mkByteBuf (readerIndex st + 4 + (-2)) (writerIndex st) (data st)) /\
  readerIndex st + 4 + (-2) < readerIndex st + 4.
Proof.
  apply (negative_length_prefix (from_uint8 [xff; xff; xff; xfe; x41; x42]) (-2));
    [reflexivity | lia].
Defined.

(** ** Strings: round trip *)

Lemma map_byte_to_of_Z (s : jsstring) :
  Forall (fun c => 0 <= c <= 255) s -> map byte_to_Z (map byte_of_Z s) = s.
Proof.
  induction 1 as [|c s Hc _ IH]; cbn [map]; [reflexivity|].
  rewrite IH, byte_to_of_Z, Z.mod_small by lia. reflexivity.
Qed.

Lemma slice_splice_prefix (n : nat) (a b d : list byte) :
  (n + length a + length b <= length d)%nat ->
  firstn (length a) (skipn n (splice n (a ++ b) d)) = a.
Proof.
  intros H. rewrite skipn_splice by (rewrite length_app; lia).
  rewrite <- app_assoc, firstn_app, Nat.sub_diag, firstn_all.
  cbn [firstn]. now rewrite app_nil_r.
Qed.

Lemma slice_splice_suffix (n : nat) (a b d : list byte) :
  (n + length a + length b <= length d)%nat ->
  firstn (length b) (skipn (n + length a) (splice n (a ++ b) d)) = b.
Proof.
  intros H. rewrite Nat.add_comm, <- skipn_skipn.
  rewrite skipn_splice by (rewrite length_app; lia).
  rewrite <- app_assoc, skipn_app, skipn_all, Nat.sub_diag. cbn [skipn app].
  rewrite firstn_app, Nat.sub_diag, firstn_all. cbn [firstn].
  now rewrite app_nil_r.
Qed.

(** Reading back, at [P], what [writeByteString s] stored at [P]. *)
Lemma readByteString_stored (s : jsstring) (P : Z) (d : list byte)
    (st : ByteBuf) :
  Forall (fun c => 0 <= c <= 255) s ->
  Z.of_nat (length s) <= max_string_length ->
  DataView.fits d P (4 + length s) = true ->
  readerIndex st = P ->
  data st = splice (Z.to_nat P)
              (be_split 4 (Z.of_nat (length s)) ++ map byte_of_Z s) d ->
  readByteString st
  = Ok s (mkByteBuf (P + 4 + Z.of_nat (length s)) (writerIndex st) (data st)).
Proof.
  intros Hs Hlen Hfit Hr Hd. pose proof Hfit as Hf. apply fits_true in Hf.
  unfold max_string_length in Hlen.
  set (a := be_split 4 (Z.of_nat (length s))) in *.
  set (b := map byte_of_Z s) in *.
  assert (La : length a = 4%nat) by apply length_be_split.
  assert (Lb : length b = length s) by apply length_map.
  assert (Ld : length (data st) = length d)
    by (rewrite Hd, length_splice; [reflexivity | rewrite length_app; lia]).
  assert (Hn : DataView.getInt32 (data st) P = Some (Z.of_nat (length s))).
  { unfold DataView.getInt32, DataView.get_signed, DataView.get_unsigned,
      DataView.get_bytes.
    replace (DataView.fits (data st) P 4) with true
      by (symmetry; apply fits_true; lia).
    pose proof (slice_splice_prefix (Z.to_nat P) a b d ltac:(lia)) as Hp.
    rewrite La in Hp. rewrite Hd, Hp.
    cbn [option_map]. subst a. rewrite be_combine_split.
    f_equal. apply to_signed_wrap; [lia|].
    change (8 * Z.of_nat 4 - 1) with 31. lia. }
  rewrite readByteString_unfold. cbv zeta. rewrite Hr, Hn.
  rewrite read_chars_fits; cbn [readerIndex writerIndex data].
  - rewrite Nat2Z.id. cbn [app].
    replace (Z.to_nat (P + 4 + 0)) with (Z.to_nat P + length a)%nat by lia.
    pose proof (slice_splice_suffix (Z.to_nat P) a b d ltac:(lia)) as Hq.
    rewrite Lb in Hq. rewrite Hd at 1. rewrite Hq.
    subst b. now rewrite map_byte_to_of_Z.
  - apply fits_true. rewrite Nat2Z.id. lia.
Qed.

(** C3: for a string [s] of code units 0..255 and a position [P] with room
    for [4 + length s] bytes, [writeByteString s] at [P] returns with the
    write cursor at [P + (4 + length s)], and [readByteString] at [P] then
    returns [s] with the read cursor at [P + (4 + length s)].  A string is
    no longer than [max_string_length]. *)
Theorem string_round_trip (st : ByteBuf) (P : Z) (s : jsstring) :
  Forall (fun c => 0 <= c <= 255) s ->
  Z.of_nat (length s) <= max_string_length ->
  DataView.fits (data st) P (4 + length s) = true ->
  exists st1 st2,
    (setWriterIndex P ;;; writeByteString s) st = Ok tt st1 /\
    writerIndex st1 = P + (4 + Z.of_nat (length s)) /\
    (setReaderIndex P ;;; readByteString) st1 = Ok s st2 /\
    readerIndex st2 = P + (4 + Z.of_nat (length s)).
Proof.
  intros Hs Hlen Hfit.
  unfold bind at 1. unfold setWriterIndex, put_writerIndex.
  rewrite writeByteString_fits by exact Hfit.
  cbn [readerIndex writerIndex data].
  eexists. eexists. split; [reflexivity|].
  split; [cbn [writerIndex]; lia|].
  unfold bind at 1. unfold setReaderIndex, put_readerIndex.
  cbn [readerIndex writerIndex data].
  rewrite (readByteString_stored s P (data st)) by (try reflexivity; assumption).
  split; [reflexivity | cbn [readerIndex]; lia].
Qed.

Lemma string_round_trip_witness :
  exists st1 st2,
    (setWriterIndex 3 ;;; writeByteString [104; 233; 0; 255]) (emptyBuffer 12)
    = Ok tt st1 /\
    writerIndex st1 = 3 + (4 + Z.of_nat (length [104; 233; 0; 255])) /\
    (setReaderIndex 3 ;;; readByteString) st1 = Ok [104; 233; 0; 255] st2 /\
    readerIndex st2 = 3 + (4 + Z.of_nat (length [104; 233; 0; 255])).
Proof.
  apply (string_round_trip (emptyBuffer 12) 3 [104; 233; 0; 255]).
  - repeat constructor; lia.
  - vm_compute. discriminate.
  - reflexivity.
Defined.

(** C9: on a fresh buffer with room for six bytes, [writeByteString "AB"]
    stores the bytes 0, 0, 0, 2, 65, 66 at offsets 0 to 5 and leaves the
    rest of the storage as it was; [setReaderIndex 0] followed by
    [readByteString] then returns "AB" with the read cursor at 6. *)
Theorem write_string_AB (d : list byte) :
  (6 <= length d)%nat ->
  exists st1 st2,
    writeByteString (js_of_string "AB"%string) (new_ByteBuf d) = Ok tt st1 /\
    data st1 = [x00; x00; x00; x02; x41; x42] ++ skipn 6 d /\
    (setReaderIndex 0 ;;; readByteString) st1
    = Ok (js_of_string "AB"%string) st2 /\
    readerIndex st2 = 6.
Proof.
  intros Hd. change (js_of_string "AB"%string) with [65; 66].
  assert (Hfit : DataView.fits d 0 (4 + length [65; 66]) = true)
    by (apply fits_true; cbn; lia).
  rewrite writeByteString_fits by exact Hfit.
  eexists. eexists. split; [reflexivity|]. split; [reflexivity|].
  unfold bind at 1. unfold setReaderIndex, put_readerIndex.
  cbn [readerIndex writerIndex data new_ByteBuf].
  rewrite (readByteString_stored [65; 66] 0 d).
  - split; reflexivity.
  - repeat constructor; lia.
  - vm_compute. discriminate.
  - exact Hfit.
  - reflexivity.
  - reflexivity.
Qed.

Lemma write_string_AB_witness :
  exists st1 st2,
    writeByteString (js_of_string "AB"%string) (emptyBuffer 16) = Ok tt st1 /\
    data st1 = [x00; x00; x00; x02; x41; x42] ++ skipn 6 (repeat x00 16) /\
    (setReaderIndex 0 ;;; readByteString) st1
    = Ok (js_of_string "AB"%string) st2 /\
    readerIndex st2 = 6.
Proof.
  apply (write_string_AB (repeat x00 16)). cbn. lia.
Defined.

(** ** Strings: code units above 255 *)

Lemma nth_error_splice_other (n m : nat) (b : byte) (d : list byte) :
  (n < length d)%nat -> m <> n ->
  nth_error (splice n [b] d) m = nth_error d m.
Proof.
  intros Hn Hm. unfold splice. cbn [length app].
  assert (Lf : length (firstn n d) = n) by (rewrite length_firstn; lia).
  destruct (Nat.lt_ge_cases m n) as [Hlt|Hge].
  - rewrite nth_error_app1 by lia. rewrite nth_error_firstn.
    destruct (Nat.ltb_spec m n); [reflexivity | lia].
  - rewrite nth_error_app2 by lia. rewrite Lf.
    destruct (m - n)%nat as [|k] eqn:E; [lia|]. cbn [nth_error].
    rewrite nth_error_skipn. f_equal. lia.
Qed.

Lemma writeByteSigned_state (c : Z) (st : ByteBuf) :
  state_of (writeByteSigned c st)
  = if DataView.fits (data st) (writerIndex st) 1
    then mkByteBuf (readerIndex st) (writerIndex st + 1)
           (splice (Z.to_nat (writerIndex st)) [byte_of_Z c] (data st))
    else st.
Proof.
  destruct (DataView.fits (data st) (writerIndex st) 1) eqn:E.
  - now rewrite writeByteSigned_fits.
  - change (writeByteSigned c) with (write_fixed 1 c).
    now rewrite write_fixed_throws.
Qed.

(** The loop writes at the write cursor and above only. *)
Lemma write_chars_below (s : jsstring) (st : ByteBuf) (j : Z) :
  j < writerIndex st ->
  byte_at (state_of (write_chars s st)) j = byte_at st j.
Proof.
  revert st. induction s as [|c s IH]; intros st Hj; [reflexivity|].
  cbn [write_chars]. unfold bind.
  pose proof (writeByteSigned_state c st) as Hs.
  destruct (DataView.fits (data st) (writerIndex st) 1) eqn:E.
  - rewrite writeByteSigned_fits in * by exact E. cbn [state_of] in Hs.
    rewrite IH by (cbn [writerIndex]; lia).
    apply fits_true in E. unfold byte_at. cbn [data].
    destruct (Z.leb_spec 0 j); [|reflexivity].
    apply nth_error_splice_other; lia.
  - change (writeByteSigned c) with (write_fixed 1 c).
    now rewrite write_fixed_throws.
Qed.

Lemma write_chars_byte (s : jsstring) (st : ByteBuf) (i : nat) (c : Z) :
  nth_error s i = Some c ->
  DataView.fits (data st) (writerIndex st) (S i) = true ->
  byte_at (state_of (write_chars s st)) (writerIndex st + Z.of_nat i)
  = Some (byte_of_Z c).
Proof.
  revert st i. induction s as [|c0 s IH]; intros st i Hc Hfit.
  - destruct i; discriminate.
  - pose proof Hfit as Hf. apply fits_true in Hf.
    assert (H1 : DataView.fits (data st) (writerIndex st) 1 = true)
      by (apply fits_true; lia).
    cbn [write_chars]. unfold bind. rewrite writeByteSigned_fits by exact H1.
    destruct i as [|i]; cbn [nth_error] in Hc.
    + injection Hc as ->. rewrite write_chars_below by (cbn [writerIndex]; lia).
      rewrite Z.add_0_r. now apply byte_at_splice1.
    + replace (writerIndex st + Z.of_nat (S i))
        with (writerIndex st + 1 + Z.of_nat i) by lia.
      apply (IH (mkByteBuf _ _ _) i Hc). cbn [data writerIndex].
      apply fits_true. rewrite length_splice by (cbn [length]; lia). lia.
Qed.

(** C10: the byte [writeByteString s] stores for the character at index
    [i] is that character's code unit modulo 256, whenever the storage has
    room up to that byte; and a string with a code unit above 255 does not
    come back from a write followed by a read at the same position. *)
Theorem string_bytes_mod_256 :
  (forall (st : ByteBuf) (s : jsstring) (i : nat) (c : Z),
      nth_error s i = Some c ->
      DataView.fits (data st) (writerIndex st) (4 + S i) = true ->
      option_map byte_to_Z
        (byte_at (state_of (writeByteString s st))
           (writerIndex st + 4 + Z.of_nat i))
      = Some (c mod 256)) /\
  (exists (s r : jsstring) (st : ByteBuf) (P : Z),
      Exists (fun c => 255 < c) s /\
      value_of ((setWriterIndex P ;;; writeByteString s ;;;
                 setReaderIndex P ;;; readByteString) st) = Some r /\
      r <> s).
Proof.
  split.
  - intros st s i c Hc Hfit. pose proof Hfit as Hf. apply fits_true in Hf.
    unfold writeByteString, bind.
    change (writeInt (Z.of_nat (length s)))
      with (write_fixed 4 (Z.of_nat (length s))).
    rewrite write_fixed_fits by (apply fits_true; lia).
    pose proof (write_chars_byte s
                  (mkByteBuf (readerIndex st) (writerIndex st + Z.of_nat 4)
                     (splice (Z.to_nat (writerIndex st))
                        (be_split 4 (Z.of_nat (length s))) (data st)))
                  i c Hc) as Hb.
    cbn [data writerIndex] in Hb. change (Z.of_nat 4) with 4 in *.
    rewrite Hb.
    + cbn [option_map]. now rewrite byte_to_of_Z.
    + apply fits_true.
      rewrite length_splice by (rewrite length_be_split; lia). lia.
  - exists [72; 8364], [72; 172], (emptyBuffer 8), 0.
    split; [|split].
    + apply Exists_cons_tl, Exists_cons_hd. lia.
    + reflexivity.
    + discriminate.
Qed.

Lemma string_bytes_mod_256_witness :
  option_map byte_to_Z
    (byte_at (state_of (writeByteString [72; 8364] (emptyBuffer 8)))
       (writerIndex (emptyBuffer 8) + 4 + Z.of_nat 1))
  = Some (8364 mod 256).
Proof.
  apply (proj1 string_bytes_mod_256 (emptyBuffer 8) [72; 8364] 1%nat 8364);
    reflexivity.
Defined.

(** ** Cursors below zero *)

Lemma no_rewind_refl st : no_rewind st st.
Proof. unfold no_rewind. lia. Qed.

Lemma no_rewind_trans a b c : no_rewind a b -> no_rewind b c -> no_rewind a c.
Proof. unfold no_rewind. lia. Qed.

Lemma add_readerIndex_no_rewind k : 0 <= k -> relates no_rewind (add_readerIndex k).
Proof. intros Hk st. unfold no_rewind. cbn. lia. Qed.

Lemma add_writerIndex_no_rewind k : 0 <= k -> relates no_rewind (add_writerIndex k).
Proof. intros Hk st. unfold no_rewind. cbn. lia. Qed.

Lemma view_set_no_rewind f : relates no_rewind (view_set f).
Proof.
  apply relates_view_set; intros; unfold no_rewind; cbn; lia.
Qed.

#[local] Hint Resolve no_rewind_refl no_rewind_trans
  add_readerIndex_no_rewind add_writerIndex_no_rewind view_set_no_rewind
  : frame.
#[local] Hint Extern 1 (_ <= _) => lia : frame.




Section NonNegativeCursors.
Context {float : Type}.
Variable float32_of_bits : Z -> float.
Variable float32_bits : float -> Z.



End NonNegativeCursors.


(** * Further properties of the code *)

(** ** The storage never changes length *)

Lemma same_length_refl st : same_length st st.
Proof. reflexivity. Qed.

Lemma same_length_trans a b c :
  same_length a b -> same_length b c -> same_length a c.
Proof. unfold same_length. congruence. Qed.

Lemma same_data_refl st : same_data st st.
Proof. reflexivity. Qed.

Lemma same_data_trans a b c : same_data a b -> same_data b c -> same_data a c.
Proof. unfold same_data. congruence. Qed.

Lemma put_readerIndex_same_data i : relates same_data (put_readerIndex i).
Proof. intros st. reflexivity. Qed.

Lemma put_writerIndex_same_data i : relates same_data (put_writerIndex i).
Proof. intros st. reflexivity. Qed.

Lemma put_readerIndex_same_length i : relates same_length (put_readerIndex i).
Proof. intros st. reflexivity. Qed.

Lemma put_writerIndex_same_length i : relates same_length (put_writerIndex i).
Proof. intros st. reflexivity. Qed.

Lemma set_int_length (w : nat) (d d' : list byte) (off v : Z) :
  DataView.set_int w d off v = Some d' -> length d' = length d.
Proof.
  destruct (DataView.fits d off w) eqn:E.
  - rewrite set_int_fits by exact E. intros [= <-].
    apply fits_true in E. apply length_splice.
    rewrite length_be_split. lia.
  - now rewrite set_int_throws by exact E.
Qed.

Lemma view_set_same_length (f : list byte -> option (list byte)) :
  (forall d d', f d = Some d' -> length d' = length d) ->
  relates same_length (view_set f).
Proof.
  intros Hf st. unfold view_set, same_length.
  destruct (f (data st)) as [d'|] eqn:E; cbn; [now apply Hf | reflexivity].
Qed.

#[local] Hint Resolve same_length_refl same_length_trans
  same_data_refl same_data_trans
  put_readerIndex_same_data put_writerIndex_same_data
  put_readerIndex_same_length put_writerIndex_same_length : frame.
#[local] Hint Extern 2 (relates same_length (view_set _)) =>
  apply view_set_same_length; intros ? ?; apply set_int_length : frame.

(** Unfolds every method down to field accesses and DataView calls. *)
Ltac unfold_methods :=
  unfold readBool, readByteSigned, readByteUnsigned, readShort, readFloat,
    readInt, readLong, readByteString, writeBool, writeByteSigned,
    writeByteUnsigned, writeShort, writeFloat, writeInt, writeLong,
    writeByteString, getReaderIndex, getWriterIndex, setReaderIndex,
    setWriterIndex, skipReader, skipWriter;
  unfold readInt, writeInt, add_readerIndex, add_writerIndex.

Section Storage.
Context {float : Type}.
Variable float32_of_bits : Z -> float.
Variable float32_bits : float -> Z.

Lemma exec_same_length (c : call float) (st : ByteBuf) :
  same_length st (exec float32_of_bits float32_bits c st).
Proof.
  assert (H : forall A (m : M A),
             relates same_length m -> same_length st (state_of (m st)))
    by (intros A m Hm; apply Hm).
  destruct c; cbn [exec]; apply H; unfold_methods; frame;
    try (unfold writeByteSigned, add_writerIndex; frame).
  intros st'. reflexivity.
Qed.

(** X1: the storage has the same length after any sequence of calls,
    whatever the calls return or throw. *)
Theorem storage_length_fixed (cs : list (call float)) (st : ByteBuf) :
  length (data (run float32_of_bits float32_bits cs st)) = length (data st).
Proof.
  revert st. induction cs as [|c cs IH]; intros st; cbn [run];
    [reflexivity|].
  rewrite IH. exact (exec_same_length c st).
Qed.

(** X2: a call that is not one of the write methods (a read, a getter, a
    cursor set or skip, [bytes]) leaves every byte of the storage as it
    was, also when it throws. *)
Theorem only_writes_change_storage (c : call float) (st : ByteBuf) :
  writes_storage c = false ->
  data (exec float32_of_bits float32_bits c st) = data st.
Proof.
  intros Hc.
  assert (H : forall A (m : M A),
             relates same_data m -> data (state_of (m st)) = data st)
    by (intros A m Hm; apply Hm).
  destruct c; try discriminate Hc; cbn [exec]; apply H; unfold_methods;
    frame.
  intros st'. reflexivity.
Qed.
End Storage.

Lemma only_writes_change_storage_witness :
  data (exec (fun z => z) bits_of_bits ReadByteString
               (from_uint8 [x00; x00; x00; x05; x41]))
  = data (from_uint8 [x00; x00; x00; x05; x41]).
Proof.
  apply (only_writes_change_storage (fun z => z) bits_of_bits ReadByteString).
  reflexivity.
Defined.

(** ** What a write stores, and where *)

Lemma nth_error_splice_outside (n m : nat) (bs d : list byte) :
  (n + length bs <= length d)%nat ->
  (m < n \/ n + length bs <= m)%nat ->
  nth_error (splice n bs d) m = nth_error d m.
Proof.
  intros H Hm. unfold splice.
  assert (Lf : length (firstn n d) = n) by (rewrite length_firstn; lia).
  destruct Hm as [Hm|Hm].
  - rewrite nth_error_app1 by lia. rewrite nth_error_firstn.
    destruct (Nat.ltb_spec m n); [reflexivity | lia].
  - rewrite nth_error_app2 by lia. rewrite Lf.
    rewrite nth_error_app2 by lia. rewrite nth_error_skipn.
    f_equal. lia.
Qed.

Lemma byte_at_splice_outside (r w r' w' : Z) (n : nat) (bs d : list byte)
    (j : Z) :
  (n + length bs <= length d)%nat ->
  j < Z.of_nat n \/ Z.of_nat (n + length bs) <= j ->
  byte_at (mkByteBuf r' w' (splice n bs d)) j = byte_at (mkByteBuf r w d) j.
Proof.
  intros H Hj. unfold byte_at. cbn [data].
  destruct (Z.leb_spec 0 j); [|reflexivity].
  apply nth_error_splice_outside; lia.
Qed.

Lemma fits_room (st : ByteBuf) (k : nat) :
  DataView.fits (data st) (writerIndex st) (S k) = (S k <=? room st)%nat.
Proof.
  unfold room.
  destruct (DataView.fits (data st) (writerIndex st) 0) eqn:E0;
    destruct (DataView.fits (data st) (writerIndex st) (S k)) eqn:E1;
    destruct (Nat.leb_spec (S k)
                (length (data st) - Z.to_nat (writerIndex st))) as [L|L];
    try reflexivity;
    try apply fits_true in E0; try apply fits_true in E1;
    try (apply not_true_iff_false in E0; rewrite fits_true in E0);
    try (apply not_true_iff_false in E1; rewrite fits_true in E1);
    try lia.
Qed.

(** The loop of [writeByteString] writes as many code units as there is
    room for, and throws at the first one that does not fit. *)
Lemma write_chars_outcome (s : jsstring) (st : ByteBuf) :
  write_chars s st
  = let k := Nat.min (length s) (room st) in
    let st' := mkByteBuf (readerIndex st) (writerIndex st + Z.of_nat k)
                 (splice (Z.to_nat (writerIndex st))
                    (map byte_of_Z (firstn k s)) (data st)) in
    if (length s <=? room st)%nat then Ok tt st' else RangeError st'.
Proof.
  revert st. induction s as [|c s IH]; intros st; cbv zeta.
  - destruct st as [r w d]. cbn [write_chars ret length Nat.min firstn map
      readerIndex writerIndex data Nat.leb].
    now rewrite splice_nil, Z.add_0_r.
  - cbn [write_chars]. unfold bind.
    pose proof (fits_room st 0) as Hf.
    destruct (room st) as [|m] eqn:Hroom.
    + cbn [Nat.leb] in Hf.
      change (writeByteSigned c) with (write_fixed 1 c).
      rewrite write_fixed_throws by exact Hf.
      destruct st as [r w d]. cbn [length Nat.min Nat.leb firstn map
        readerIndex writerIndex data].
      now rewrite splice_nil, Z.add_0_r.
    + cbn [Nat.leb] in Hf. rewrite writeByteSigned_fits by exact Hf.
      pose proof Hf as Hf'. apply fits_true in Hf'.
      assert (Hlen : (length (data st) - Z.to_nat (writerIndex st) = S m)%nat).
      { unfold room in Hroom.
        destruct (DataView.fits (data st) (writerIndex st) 0);
          [exact Hroom | discriminate]. }
      rewrite IH. cbv zeta. cbn [readerIndex writerIndex data].
      assert (Hr1 : room (mkByteBuf (readerIndex st) (writerIndex st + 1)
                        (splice (Z.to_nat (writerIndex st)) [byte_of_Z c]
                           (data st))) = m).
      { unfold room. cbn [data writerIndex].
        rewrite fits_splice, length_splice by (cbn [length]; lia).
        replace (DataView.fits (data st) (writerIndex st + 1) 0) with true
          by (symmetry; apply fits_true; lia).
        lia. }
      rewrite Hr1. cbn [length Nat.min Nat.leb firstn map].
      set (k := Nat.min (length s) m).
      assert (Hk : (k <= m)%nat) by (subst k; lia).
      replace (Z.to_nat (writerIndex st + 1))
        with (Z.to_nat (writerIndex st) + length [byte_of_Z c])%nat
        by (cbn [length]; lia).
      rewrite splice_app
        by (cbn [length]; rewrite length_map, length_firstn; lia).
      replace (writerIndex st + 1 + Z.of_nat k)
        with (writerIndex st + Z.of_nat (S k)) by lia.
      reflexivity.
Qed.

(** Without room for the length prefix [writeByteString] throws and stores
    nothing; otherwise it stores the prefix and as many characters as fit,
    leaves the write cursor after the last one stored, and throws if a
    character was left over. *)
Lemma writeByteString_outcome (s : jsstring) (st : ByteBuf) :
  writeByteString s st
  = if DataView.fits (data st) (writerIndex st) 4
    then
      let k := Nat.min (length s) (room st - 4) in
      let st' := mkByteBuf (readerIndex st)
                   (writerIndex st + 4 + Z.of_nat k)
                   (splice (Z.to_nat (writerIndex st))
                      (be_split 4 (Z.of_nat (length s))
                       ++ map byte_of_Z (firstn k s))
                      (data st)) in
      if (length s <=? room st - 4)%nat then Ok tt st' else RangeError st'
    else RangeError st.
Proof.
  unfold writeByteString, bind.
  change (writeInt (Z.of_nat (length s)))
    with (write_fixed 4 (Z.of_nat (length s))).
  destruct (DataView.fits (data st) (writerIndex st) 4) eqn:E.
  - rewrite write_fixed_fits by exact E. pose proof E as E'.
    apply fits_true in E'.
    set (a := be_split 4 (Z.of_nat (length s))).
    assert (La : length a = 4%nat) by apply length_be_split.
    rewrite write_chars_outcome. cbv zeta.
    cbn [readerIndex writerIndex data].
    assert (Hr : room (mkByteBuf (readerIndex st) (writerIndex st + Z.of_nat 4)
                         (splice (Z.to_nat (writerIndex st)) a (data st)))
                 = (room st - 4)%nat).
    { unfold room. cbn [data writerIndex].
      rewrite fits_splice, length_splice by lia.
      replace (DataView.fits (data st) (writerIndex st + Z.of_nat 4) 0)
        with true by (symmetry; apply fits_true; lia).
      replace (DataView.fits (data st) (writerIndex st) 0)
        with true by (symmetry; apply fits_true; lia).
      lia. }
    rewrite Hr. set (k := Nat.min (length s) (room st - 4)).
    assert (Hk : (Z.to_nat (writerIndex st) + 4 + k <= length (data st))%nat).
    { subst k. unfold room.
      replace (DataView.fits (data st) (writerIndex st) 0)
        with true by (symmetry; apply fits_true; lia).
      lia. }
    replace (Z.to_nat (writerIndex st + Z.of_nat 4))
      with (Z.to_nat (writerIndex st) + length a)%nat by lia.
    rewrite splice_app by (rewrite length_map, length_firstn; lia).
    replace (writerIndex st + Z.of_nat 4 + Z.of_nat k)
      with (writerIndex st + 4 + Z.of_nat k) by lia.
    reflexivity.
  - now rewrite write_fixed_throws by exact E.
Qed.

(** X3: [writeByteString] is not atomic.  When the storage has room for
    the length prefix and for [k] characters only, [k] less than the length
    of the string, the call throws after it has stored the prefix (holding
    the full length) and the first [k] characters, and it leaves the write
    cursor after them. *)
Theorem string_write_without_room (s : jsstring) (st : ByteBuf) (k : nat) :
  (k < length s)%nat ->
  DataView.fits (data st) (writerIndex st) (4 + k) = true ->
  DataView.fits (data st) (writerIndex st) (4 + S k) = false ->
  writeByteString s st
  = RangeError
      (mkByteBuf (readerIndex st) (writerIndex st + 4 + Z.of_nat k)
         (splice (Z.to_nat (writerIndex st))
            (be_split 4 (Z.of_nat (length s)) ++ map byte_of_Z (firstn k s))
            (data st))).
Proof.
  intros Hk H1 H2. pose proof H1 as H1'. apply fits_true in H1'.
  apply not_true_iff_false in H2. rewrite fits_true in H2.
  assert (Hr : (room st - 4 = k)%nat).
  { unfold room.
    replace (DataView.fits (data st) (writerIndex st) 0)
      with true by (symmetry; apply fits_true; lia).
    lia. }
  rewrite writeByteString_outcome.
  replace (DataView.fits (data st) (writerIndex st) 4) with true
    by (symmetry; apply fits_true; lia).
  cbv zeta. rewrite Hr.
  replace (Nat.min (length s) k) with k by lia.
  destruct (Nat.leb_spec (length s) k); [lia | reflexivity].
Qed.

Lemma string_write_without_room_witness :
  writeByteString [72; 105; 33] (emptyBuffer 6)
  = RangeError
      (mkByteBuf 0 (0 + 4 + Z.of_nat 2)
         (splice (Z.to_nat 0)
            (be_split 4 (Z.of_nat 3) ++ map byte_of_Z (firstn 2 [72; 105; 33]))
            (repeat x00 6))).
Proof.
  apply (string_write_without_room [72; 105; 33] (emptyBuffer 6) 2);
    [cbn; lia | reflexivity | reflexivity].
Defined.

Section Footprint.
Context {float : Type}.
Variable float32_of_bits : Z -> float.
Variable float32_bits : float -> Z.

Lemma byte_at_data (st st' : ByteBuf) (j : Z) :
  data st' = data st -> byte_at st' j = byte_at st j.
Proof. unfold byte_at. now intros ->. Qed.

Lemma write_fixed_footprint (w : nat) (v : Z) (st : ByteBuf) (j : Z) :
  j < writerIndex st \/ writerIndex (state_of (write_fixed w v st)) <= j ->
  byte_at (state_of (write_fixed w v st)) j = byte_at st j.
Proof.
  destruct (DataView.fits (data st) (writerIndex st) w) eqn:E.
  - rewrite write_fixed_fits by exact E. cbn [state_of writerIndex].
    apply fits_true in E. intros Hj. destruct st as [r wi d].
    cbn [readerIndex writerIndex data] in *.
    apply byte_at_splice_outside; rewrite length_be_split; lia.
  - now rewrite write_fixed_throws by exact E.
Qed.

(** X4: a call changes no byte outside the range from the write cursor
    before the call to the write cursor after it; in particular bytes
    below the write cursor are never overwritten by writing on. *)
Theorem write_footprint (c : call float) (st : ByteBuf) (j : Z) :
  j < writerIndex st \/
  writerIndex (exec float32_of_bits float32_bits c st) <= j ->
  byte_at (exec float32_of_bits float32_bits c st) j = byte_at st j.
Proof.
  destruct (writes_storage c) eqn:Hc.
  - destruct c; try discriminate Hc; cbn [exec].
    + exact (write_fixed_footprint 1 (if b then 1 else 0) st j).
    + exact (write_fixed_footprint 1 b st j).
    + exact (write_fixed_footprint 1 (b - 128) st j).
    + exact (write_fixed_footprint 2 s st j).
    + exact (write_fixed_footprint 4 (float32_bits f) st j).
    + exact (write_fixed_footprint 4 i st j).
    + exact (write_fixed_footprint 8 l st j).
    + rewrite writeByteString_outcome.
      destruct (DataView.fits (data st) (writerIndex st) 4) eqn:E;
        [|reflexivity].
      cbv zeta. set (k := Nat.min (length s) (room st - 4)).
      assert (Hk : (Z.to_nat (writerIndex st) + 4 + k <= length (data st))%nat
                   /\ 0 <= writerIndex st).
      { apply fits_true in E. subst k. unfold room.
        replace (DataView.fits (data st) (writerIndex st) 0)
          with true by (symmetry; apply fits_true; lia).
        lia. }
      intros Hj.
      assert (Hj' : j < writerIndex st \/
                    writerIndex st + 4 + Z.of_nat k <= j).
      { destruct (length s <=? room st - 4)%nat; exact Hj. }
      destruct st as [r wi d]. cbn [readerIndex writerIndex data] in *.
      destruct (length s <=? room _ - 4)%nat; cbn [state_of];
        apply byte_at_splice_outside;
        rewrite ?length_app, ?length_be_split, ?length_map, ?length_firstn;
        lia.
  - intros _. apply byte_at_data.
    assert (H : forall A (m : M A),
               relates same_data m -> data (state_of (m st)) = data st)
      by (intros A m Hm; apply Hm).
    destruct c; try discriminate Hc; cbn [exec]; apply H; unfold_methods;
      frame.
    intros st'. reflexivity.
Qed.
End Footprint.

Lemma write_footprint_witness :
  byte_at (exec (fun z => z) bits_of_bits (WriteInt (-1))
             (state_of (setWriterIndex 2 (emptyBuffer 8)))) 1
  = byte_at (state_of (setWriterIndex 2 (emptyBuffer 8))) 1.
Proof.
  apply (write_footprint (fun z => z) bits_of_bits (WriteInt (-1))).
  left. reflexivity.
Defined.

(** ** Integers outside the range of their type *)

Lemma to_signed_mod (bits v : Z) :
  0 < bits -> to_signed bits (v mod 2 ^ bits) = wrap_signed bits v.
Proof.
  intros Hb. unfold to_signed, wrap_signed.
  assert (Hp : 2 ^ bits = 2 * 2 ^ (bits - 1)).
  { replace bits with (bits - 1 + 1) at 1 by lia.
    rewrite Z.pow_add_r by lia. lia. }
  assert (Hh : 0 < 2 ^ (bits - 1)) by (apply Z.pow_pos_nonneg; lia).
  pose proof (Z.mod_pos_bound v (2 ^ bits) ltac:(lia)) as Hu.
  set (u := v mod 2 ^ bits) in *.
  assert (Hv : (v + 2 ^ (bits - 1)) mod 2 ^ bits
               = (u + 2 ^ (bits - 1)) mod 2 ^ bits)
    by (subst u; now rewrite Zplus_mod_idemp_l).
  rewrite Hv.
  destruct (Z.ltb_spec u (2 ^ (bits - 1))).
  - rewrite Z.mod_small by lia. lia.
  - rewrite <- (Z.mod_unique (u + 2 ^ (bits - 1)) (2 ^ bits) 1
                  (u + 2 ^ (bits - 1) - 2 ^ bits)); lia.
Qed.

Lemma wrapping_round_trip_fixed (w : nat) (v P : Z) (st : ByteBuf) :
  DataView.fits (data st) P w = true -> (0 < w)%nat ->
  round_trips (write_fixed w v) (read_fixed w)
    (wrap_signed (8 * Z.of_nat w) v) P st.
Proof.
  intros H Hw. unfold round_trips.
  rewrite write_then_seek by exact H.
  rewrite read_fixed_unfold. cbn [readerIndex writerIndex data].
  rewrite get_signed_set_int by exact H. cbn [value_of].
  now rewrite to_signed_mod by lia.
Qed.

(** X5: an integer outside the range of its type is stored modulo 2^bits:
    written and read back at a position inside the storage, any integer
    [v] comes back as the integer of the type's range congruent to it;
    with [writeByteUnsigned] and [readByteUnsigned] it comes back as
    [v mod 256] when [v] and [v - 128], which the write computes, are safe
    integers. *)
Theorem wrapping_round_trip (st : ByteBuf) (P v : Z) :
  (DataView.fits (data st) P 1 = true ->
   round_trips (writeByteSigned v) readByteSigned (wrap_signed 8 v) P st) /\
  (DataView.fits (data st) P 1 = true ->
   safe_integer v -> safe_integer (v - 128) ->
   round_trips (writeByteUnsigned v) readByteUnsigned (v mod 256) P st) /\
  (DataView.fits (data st) P 2 = true ->
   round_trips (writeShort v) readShort (wrap_signed 16 v) P st) /\
  (DataView.fits (data st) P 4 = true ->
   round_trips (writeInt v) readInt (wrap_signed 32 v) P st) /\
  (DataView.fits (data st) P 8 = true ->
   round_trips (writeLong v) readLong (wrap_signed 64 v) P st).
Proof.
  split; [| split; [| split; [| split]]]; intros H.
  - apply (wrapping_round_trip_fixed 1 v P st H). lia.
  - intros _ _. unfold round_trips.
    change (writeByteUnsigned v) with (write_fixed 1 (v - 128)).
    rewrite write_then_seek by exact H.
    rewrite readByteUnsigned_unfold. cbn [readerIndex writerIndex data].
    unfold DataView.getInt8. rewrite get_signed_set_int by exact H.
    cbn [value_of]. f_equal. change (8 * Z.of_nat 1) with 8.
    rewrite to_signed_mod by lia. unfold wrap_signed.
    change (2 ^ (8 - 1)) with 128. change (2 ^ 8) with 256.
    replace (v - 128 + 128) with v by lia. lia.
  - apply (wrapping_round_trip_fixed 2 v P st H). lia.
  - apply (wrapping_round_trip_fixed 4 v P st H). lia.
  - apply (wrapping_round_trip_fixed 8 v P st H). lia.
Qed.

Lemma wrapping_round_trip_witness :
  round_trips (writeByteSigned 200) readByteSigned (wrap_signed 8 200) 0
    (emptyBuffer 8) /\
  round_trips (writeByteUnsigned 200) readByteUnsigned (200 mod 256) 0
    (emptyBuffer 8) /\
  round_trips (writeShort 200) readShort (wrap_signed 16 200) 0
    (emptyBuffer 8) /\
  round_trips (writeInt 200) readInt (wrap_signed 32 200) 0 (emptyBuffer 8) /\
  round_trips (writeLong 200) readLong (wrap_signed 64 200) 0 (emptyBuffer 8).
Proof.
  destruct (wrapping_round_trip (emptyBuffer 8) 0 200)
    as (H1 & H2 & H3 & H4 & H5).
  split; [| split; [| split; [| split]]].
  - apply H1. reflexivity.
  - apply H2; [reflexivity | |]; unfold safe_integer; cbn; lia.
  - apply H3. reflexivity.
  - apply H4. reflexivity.
  - apply H5. reflexivity.
Defined.

(** ** Reading storage that was not written by this class *)

Lemma be_combine_range (bs : list byte) :
  0 <= be_combine bs < 2 ^ (8 * Z.of_nat (length bs)).
Proof.
  induction bs as [|b bs IH]; cbn [be_combine length].
  - cbn. lia.
  - pose proof (byte_to_Z_range b) as Hb.
    replace (8 * Z.of_nat (S (length bs)))
      with (8 * Z.of_nat (length bs) + 8) by lia.
    rewrite Z.pow_add_r by lia. change (2 ^ 8) with 256. nia.
Qed.

Lemma get_bytes_length (d bs : list byte) (off : Z) (w : nat) :
  DataView.get_bytes d off w = Some bs -> length bs = w.
Proof.
  unfold DataView.get_bytes.
  destruct (DataView.fits d off w) eqn:E; [|discriminate].
  intros [= <-]. apply fits_true in E.
  rewrite length_firstn, length_skipn. lia.
Qed.

Lemma to_signed_range (bits u : Z) :
  0 < bits -> 0 <= u < 2 ^ bits ->
  - 2 ^ (bits - 1) <= to_signed bits u < 2 ^ (bits - 1).
Proof.
  intros Hb Hu. unfold to_signed.
  assert (Hp : 2 ^ bits = 2 * 2 ^ (bits - 1)).
  { replace bits with (bits - 1 + 1) at 1 by lia.
    rewrite Z.pow_add_r by lia. lia. }
  destruct (Z.ltb_spec u (2 ^ (bits - 1))); lia.
Qed.

Lemma get_signed_range (w : nat) (d : list byte) (off v : Z) :
  (0 < w)%nat ->
  DataView.get_signed w d off = Some v ->
  - 2 ^ (8 * Z.of_nat w - 1) <= v < 2 ^ (8 * Z.of_nat w - 1).
Proof.
  intros Hw. unfold DataView.get_signed, DataView.get_unsigned.
  destruct (DataView.get_bytes d off w) as [bs|] eqn:E; [|discriminate].
  cbn [option_map]. intros [= <-].
  apply get_bytes_length in E. pose proof (be_combine_range bs) as Hr.
  rewrite E in Hr. apply to_signed_range; lia.
Qed.

Lemma read_fixed_value (w : nat) (st : ByteBuf) :
  value_of (read_fixed w st) = DataView.get_signed w (data st) (readerIndex st).
Proof.
  rewrite read_fixed_unfold. cbv zeta.
  now destruct (DataView.get_signed w (data st) (readerIndex st)).
Qed.

(** X6: whatever the storage holds, a value returned by an integer read
    lies in the range of its type: -128..127, 0..255 for the unsigned
    byte, and the 16-, 32- and 64-bit signed ranges. *)
Theorem read_values_in_range (st : ByteBuf) (v : Z) :
  (value_of (readByteSigned st) = Some v -> - 2 ^ 7 <= v < 2 ^ 7) /\
  (value_of (readByteUnsigned st) = Some v -> 0 <= v <= 255) /\
  (value_of (readShort st) = Some v -> - 2 ^ 15 <= v < 2 ^ 15) /\
  (value_of (readInt st) = Some v -> - 2 ^ 31 <= v < 2 ^ 31) /\
  (value_of (readLong st) = Some v -> - 2 ^ 63 <= v < 2 ^ 63).
Proof.
  split; [| split; [| split; [| split]]].
  - change readByteSigned with (read_fixed 1). rewrite read_fixed_value.
    intros H. exact (get_signed_range 1 _ _ _ ltac:(lia) H).
  - rewrite readByteUnsigned_unfold. cbv zeta.
    destruct (DataView.getInt8 (data st) (readerIndex st)) as [x|] eqn:E;
      [|discriminate].
    cbn [value_of]. intros [= <-].
    pose proof (get_signed_range 1 _ _ _ ltac:(lia) E) as Hx.
    change (2 ^ (8 * Z.of_nat 1 - 1)) with 128 in Hx. lia.
  - change readShort with (read_fixed 2). rewrite read_fixed_value.
    intros H. exact (get_signed_range 2 _ _ _ ltac:(lia) H).
  - change readInt with (read_fixed 4). rewrite read_fixed_value.
    intros H. exact (get_signed_range 4 _ _ _ ltac:(lia) H).
  - change readLong with (read_fixed 8). rewrite read_fixed_value.
    intros H. exact (get_signed_range 8 _ _ _ ltac:(lia) H).
Qed.

Lemma read_values_in_range_witness :
  - 2 ^ 15 <= -2 < 2 ^ 15 /\ 0 <= 127 <= 255.
Proof.
  destruct (read_values_in_range (from_uint8 [xff; xfe]) (-2))
    as (_ & _ & H & _).
  destruct (read_values_in_range (from_uint8 [xff; xfe]) 127)
    as (_ & H' & _).
  split; [apply H | apply H']; reflexivity.
Defined.

Lemma unsigned_remap (x : byte) :
  to_signed 8 (byte_to_Z x) + 128 = (byte_to_Z x + 128) mod 256.
Proof.
  destruct x; reflexivity.
Qed.

(** X7: [readByteUnsigned] returns the unsigned value of the byte at the
    read cursor plus 128, modulo 256 (the byte 0 reads as 128 and the byte
    255 as 127), and throws when there is no byte at the read cursor. *)
Theorem readByteUnsigned_value (st : ByteBuf) :
  value_of (readByteUnsigned st)
  = option_map (fun x => (byte_to_Z x + 128) mod 256)
      (byte_at st (readerIndex st)).
Proof.
  rewrite readByteUnsigned_unfold. cbv zeta.
  destruct (byte_at st (readerIndex st)) as [x|] eqn:Hr.
  - rewrite (getInt8_byte_at st _ x Hr). cbn [value_of option_map].
    now rewrite unsigned_remap.
  - now rewrite (getInt8_no_byte st _ Hr).
Qed.

(** ** Reading a string from arbitrary storage *)

Lemma get_signed_fits (w : nat) (d : list byte) (off v : Z) :
  DataView.get_signed w d off = Some v -> DataView.fits d off w = true.
Proof.
  unfold DataView.get_signed, DataView.get_unsigned, DataView.get_bytes.
  now destruct (DataView.fits d off w).
Qed.

Lemma get_signed_throws (w : nat) (d : list byte) (off : Z) :
  DataView.fits d off w = false -> DataView.get_signed w d off = None.
Proof.
  intros H. unfold DataView.get_signed, DataView.get_unsigned,
    DataView.get_bytes. now rewrite H.
Qed.

Lemma read_chars_throws (k : nat) (i : Z) (acc : jsstring) (st : ByteBuf) :
  DataView.fits (data st) (readerIndex st + i) 0 = true ->
  DataView.fits (data st) (readerIndex st + i) k = false ->
  read_chars k i acc st = RangeError st.
Proof.
  revert i acc. induction k as [|k IH]; intros i acc H0 Hk.
  - congruence.
  - cbn [read_chars]. unfold bind at 1. unfold get_readerIndex.
    unfold bind at 1. unfold view_get.
    destruct (DataView.fits (data st) (readerIndex st + i) 1) eqn:E1.
    + pose proof E1 as E1'. apply fits_true in E1'.
      destruct (skipn_cons (data st) (Z.to_nat (readerIndex st + i)))
        as [x E]; [lia|].
      rewrite (getUint8_head _ _ x _ E1 E).
      apply IH.
      * apply fits_true. lia.
      * apply not_true_iff_false. rewrite fits_true.
        apply not_true_iff_false in Hk. rewrite fits_true in Hk. lia.
    + unfold DataView.getUint8, DataView.get_unsigned, DataView.get_bytes.
      now rewrite E1.
Qed.

(** [readByteString] throws when the prefix or the characters it announces
    are not all inside the storage, with the read cursor 4 further; when
    they are, it returns the announced bytes as code units. *)
Lemma readByteString_outcome (st : ByteBuf) :
  readByteString st
  = let st1 := mkByteBuf (readerIndex st + 4) (writerIndex st) (data st) in
    match DataView.getInt32 (data st) (readerIndex st) with
    | None => RangeError st1
    | Some n =>
        if DataView.fits (data st) (readerIndex st + 4) (Z.to_nat n)
        then Ok (map byte_to_Z
                   (firstn (Z.to_nat n)
                      (skipn (Z.to_nat (readerIndex st + 4)) (data st))))
               (mkByteBuf (readerIndex st + 4 + n) (writerIndex st) (data st))
        else RangeError st1
    end.
Proof.
  rewrite readByteString_unfold. cbv zeta.
  destruct (DataView.getInt32 (data st) (readerIndex st)) as [n|] eqn:En;
    [|reflexivity].
  pose proof (get_signed_fits 4 _ _ _ En) as Hp. apply fits_true in Hp.
  destruct (DataView.fits (data st) (readerIndex st + 4) (Z.to_nat n)) eqn:E.
  - rewrite read_chars_fits; cbn [readerIndex data];
      rewrite Z.add_0_r; [reflexivity | exact E].
  - rewrite read_chars_throws; cbn [readerIndex data]; rewrite ?Z.add_0_r;
      [reflexivity | apply fits_true; lia | exact E].
Qed.

(** X8: when the storage ends before the length prefix, or before the
    number of characters the prefix announces, [readByteString] throws
    and leaves the read cursor 4 past where it was, not where it was and
    not past the string, for a read cursor that is a safe integer and
    stays one 4 further; the storage and the write cursor are as before. *)
Theorem string_read_truncated (st : ByteBuf) :
  safe_integer (readerIndex st) ->
  safe_integer (readerIndex st + 4) ->
  DataView.getInt32 (data st) (readerIndex st) = None \/
  (exists n, DataView.getInt32 (data st) (readerIndex st) = Some n /\
             DataView.fits (data st) (readerIndex st + 4) (Z.to_nat n)
             = false) ->
  readByteString st
  = RangeError (mkByteBuf (readerIndex st + 4) (writerIndex st) (data st)).
Proof.
  intros _ _. rewrite readByteString_outcome. cbv zeta.
  intros [-> | (n & -> & ->)]; reflexivity.
Qed.

Lemma string_read_truncated_witness :
  let st := from_uint8 [x00; x00; x00; x03; x41; x42] in
  readByteString st
  = RangeError (mkByteBuf (readerIndex st + 4) (writerIndex st) (data st)).
Proof.
  apply (string_read_truncated (from_uint8 [x00; x00; x00; x03; x41; x42]));
    [unfold safe_integer; cbn; lia | unfold safe_integer; cbn; lia |].
  right. exists 3. split; reflexivity.
Defined.

(** X9: on any storage whose four bytes at the read cursor decode to [n]
    and which holds the [n] bytes after them, [readByteString] returns
    those bytes, in order, as code units: a string of length [n] with
    every code unit in 0..255, and the read cursor ends [4 + n] further. *)
Theorem string_read_decodes (st : ByteBuf) (n : Z) :
  DataView.getInt32 (data st) (readerIndex st) = Some n ->
  DataView.fits (data st) (readerIndex st + 4) (Z.to_nat n) = true ->
  exists s,
    readByteString st
    = Ok s (mkByteBuf (readerIndex st + 4 + n) (writerIndex st) (data st)) /\
    s = map byte_to_Z
          (firstn (Z.to_nat n)
             (skipn (Z.to_nat (readerIndex st + 4)) (data st))) /\
    length s = Z.to_nat n /\
    Forall (fun c => 0 <= c <= 255) s.
Proof.
  intros Hn Hf. eexists. rewrite readByteString_outcome. cbv zeta.
  rewrite Hn, Hf. split; [reflexivity|]. split; [reflexivity|].
  apply fits_true in Hf. split.
  - rewrite length_map, length_firstn, length_skipn. lia.
  - apply Forall_map, Forall_forall. intros x _.
    pose proof (byte_to_Z_range x). lia.
Qed.

Lemma string_read_decodes_witness :
  let st := from_uint8 [x00; x00; x00; x02; xe9; x00; x7f] in
  exists s,
    readByteString st
    = Ok s (mkByteBuf (readerIndex st + 4 + 2) (writerIndex st) (data st)) /\
    s = map byte_to_Z
          (firstn (Z.to_nat 2)
             (skipn (Z.to_nat (readerIndex st + 4)) (data st))) /\
    length s = Z.to_nat 2 /\
    Forall (fun c => 0 <= c <= 255) s.
Proof.
  apply (string_read_decodes
           (from_uint8 [x00; x00; x00; x02; xe9; x00; x7f]) 2);
    reflexivity.
Defined.

(** ** A fresh buffer *)

Lemma skipn_repeat_x00 (m n : nat) :
  skipn m (repeat x00 n) = repeat x00 (n - m).
Proof.
  revert n. induction m as [|m IH]; intros [|n]; cbn; auto.
Qed.

Lemma firstn_repeat_x00 (w n : nat) :
  (w <= n)%nat -> firstn w (repeat x00 n) = repeat x00 w.
Proof.
  revert n. induction w as [|w IH]; intros [|n] H; cbn; try lia; auto.
  f_equal. apply IH. lia.
Qed.

Lemma be_combine_zeros (w : nat) : be_combine (repeat x00 w) = 0.
Proof.
  induction w as [|w IH]; cbn [repeat be_combine]; [reflexivity|].
  rewrite IH. change (byte_to_Z x00) with 0. lia.
Qed.

Lemma get_signed_zeros (w n : nat) (off : Z) :
  (0 < w)%nat ->
  DataView.fits (repeat x00 n) off w = true ->
  DataView.get_signed w (repeat x00 n) off = Some 0.
Proof.
  intros Hw H. pose proof H as H'. apply fits_true in H'.
  rewrite repeat_length in H'.
  unfold DataView.get_signed, DataView.get_unsigned, DataView.get_bytes.
  rewrite H, skipn_repeat_x00, firstn_repeat_x00 by lia.
  cbn [option_map]. rewrite be_combine_zeros. f_equal.
  unfold to_signed.
  assert (0 < 2 ^ (8 * Z.of_nat w - 1)) by (apply Z.pow_pos_nonneg; lia).
  destruct (Z.ltb_spec 0 (2 ^ (8 * Z.of_nat w - 1))); lia.
Qed.

(** X10: a buffer made by [emptyBuffer] holds zero bytes only, so a read
    at any position inside it returns [false] for a boolean, 0 for the
    signed integers, the empty string for a string, and 128 for
    [readByteUnsigned]. *)
Theorem fresh_buffer_reads (n : nat) (P : Z) (k : kind) :
  DataView.fits (repeat x00 n) P (kind_size k) = true ->
  value_of ((setReaderIndex P ;;; read_kind k) (emptyBuffer n))
  = Some (zero_item k).
Proof.
  intros H. unfold bind at 1. unfold setReaderIndex, put_readerIndex,
    emptyBuffer, new_ByteBuf. cbn [readerIndex writerIndex data].
  pose proof H as H'. apply fits_true in H'. rewrite repeat_length in H'.
  destruct k; cbn [read_kind kind_size zero_item] in *; unfold bind at 1.
  - rewrite readBool_unfold. cbn [readerIndex writerIndex data].
    unfold DataView.getInt8. now rewrite get_signed_zeros by (lia || exact H).
  - change readByteSigned with (read_fixed 1). rewrite read_fixed_unfold.
    cbn [readerIndex writerIndex data].
    now rewrite get_signed_zeros by (lia || exact H).
  - rewrite readByteUnsigned_unfold. cbn [readerIndex writerIndex data].
    unfold DataView.getInt8. now rewrite get_signed_zeros by (lia || exact H).
  - change readShort with (read_fixed 2). rewrite read_fixed_unfold.
    cbn [readerIndex writerIndex data].
    now rewrite get_signed_zeros by (lia || exact H).
  - change readInt with (read_fixed 4). rewrite read_fixed_unfold.
    cbn [readerIndex writerIndex data].
    now rewrite get_signed_zeros by (lia || exact H).
  - change readLong with (read_fixed 8). rewrite read_fixed_unfold.
    cbn [readerIndex writerIndex data].
    now rewrite get_signed_zeros by (lia || exact H).
  - rewrite readByteString_outcome. cbn [readerIndex writerIndex data].
    unfold DataView.getInt32. rewrite get_signed_zeros by (lia || exact H).
    replace (DataView.fits (repeat x00 n) (P + 4) (Z.to_nat 0)) with true
      by (symmetry; apply fits_true; rewrite repeat_length; cbn; lia).
    reflexivity.
Qed.

Lemma fresh_buffer_reads_witness :
  value_of ((setReaderIndex 3 ;;; read_kind KByteUnsigned) (emptyBuffer 4))
  = Some (zero_item KByteUnsigned).
Proof.
  apply (fresh_buffer_reads 4 3 KByteUnsigned). reflexivity.
Defined.

(** ** Writing back what was read *)

Lemma byte_to_Z_inj (a b : byte) : byte_to_Z a = byte_to_Z b -> a = b.
Proof.
  intros H. rewrite <- (byte_of_to_Z a), <- (byte_of_to_Z b). now rewrite H.
Qed.

Lemma be_combine_inj (a b : list byte) :
  length a = length b -> be_combine a = be_combine b -> a = b.
Proof.
  revert b. induction a as [|x a IH]; intros [|y b] L E; try discriminate;
    [reflexivity|].
  cbn [length] in L. injection L as L. cbn [be_combine] in E. rewrite L in E.
  pose proof (be_combine_range a) as Ra. pose proof (be_combine_range b) as Rb.
  rewrite L in Ra.
  set (m := 2 ^ (8 * Z.of_nat (length b))) in *.
  assert (Hx : byte_to_Z x = byte_to_Z y) by nia.
  f_equal; [now apply byte_to_Z_inj | apply IH; [exact L | nia]].
Qed.

Lemma be_split_signed_combine (bs : list byte) :
  (0 < length bs)%nat ->
  be_split (length bs) (to_signed (8 * Z.of_nat (length bs)) (be_combine bs))
  = bs.
Proof.
  intros Hw. apply be_combine_inj; [apply length_be_split|].
  rewrite be_combine_split. pose proof (be_combine_range bs) as Hr.
  set (m := 2 ^ (8 * Z.of_nat (length bs))) in *.
  unfold to_signed. fold m.
  destruct (be_combine bs <? 2 ^ (8 * Z.of_nat (length bs) - 1)).
  - apply Z.mod_small. exact Hr.
  - symmetry. apply (Z.mod_unique _ _ (-1)); lia.
Qed.

Lemma splice_self (n : nat) (bs d : list byte) :
  firstn (length bs) (skipn n d) = bs ->
  (n + length bs <= length d)%nat ->
  splice n bs d = d.
Proof.
  intros E H. unfold splice.
  rewrite <- (firstn_skipn n d) at 3.
  rewrite <- (firstn_skipn (length bs) (skipn n d)).
  rewrite E, skipn_skipn, (Nat.add_comm (length bs) n). reflexivity.
Qed.

Lemma restore_fixed (w : nat) (st : ByteBuf) :
  (0 < w)%nat ->
  DataView.fits (data st) (readerIndex st) w = true ->
  exists v,
    read_fixed w st
    = Ok v (mkByteBuf (readerIndex st + Z.of_nat w) (writerIndex st) (data st))
    /\ splice (Z.to_nat (readerIndex st)) (be_split w v) (data st) = data st.
Proof.
  intros Hw H. pose proof H as H'. apply fits_true in H'.
  set (bs := firstn w (skipn (Z.to_nat (readerIndex st)) (data st))).
  assert (Lb : length bs = w)
    by (subst bs; rewrite length_firstn, length_skipn; lia).
  exists (to_signed (8 * Z.of_nat w) (be_combine bs)).
  rewrite read_fixed_unfold. cbv zeta.
  unfold DataView.get_signed, DataView.get_unsigned, DataView.get_bytes.
  rewrite H. cbn [option_map]. fold bs. split; [reflexivity|].
  rewrite <- Lb at 1 2. rewrite be_split_signed_combine by lia.
  apply splice_self; [rewrite Lb; reflexivity | lia].
Qed.

(** X11: the integer encodings lose nothing.  Reading an int8, a uint8,
    an int16, an int32 or an int64 at a position inside the storage and
    writing the value read back at the same position leaves every byte of
    the storage as it was, whatever the bytes are. *)
Theorem write_back_restores (k : kind) (st : ByteBuf) :
  k <> KBool -> k <> KByteString ->
  DataView.fits (data st) (readerIndex st) (kind_size k) = true ->
  (it <- read_kind k ;; setWriterIndex (readerIndex st) ;;; write_item it) st
  = Ok tt (mkByteBuf (readerIndex st + Z.of_nat (kind_size k))
             (readerIndex st + Z.of_nat (kind_size k)) (data st)).
Proof.
  intros Hb Hs H.
  assert (G : forall w v,
             DataView.fits (data st) (readerIndex st) w = true ->
             splice (Z.to_nat (readerIndex st)) (be_split w v) (data st)
             = data st ->
             (setWriterIndex (readerIndex st) ;;; write_fixed w v)
               (mkByteBuf (readerIndex st + Z.of_nat w) (writerIndex st)
                  (data st))
             = Ok tt (mkByteBuf (readerIndex st + Z.of_nat w)
                        (readerIndex st + Z.of_nat w) (data st))).
  { intros w v Hf Hv. unfold bind, setWriterIndex, put_writerIndex.
    cbn [readerIndex writerIndex data].
    rewrite write_fixed_fits by exact Hf.
    cbn [readerIndex writerIndex data]. now rewrite Hv. }
  destruct k; try congruence; cbn [kind_size read_kind] in *;
    unfold bind at 1; unfold bind at 1.
  - destruct (restore_fixed 1 st ltac:(lia) H) as (v & Hr & Hv).
    change readByteSigned with (read_fixed 1). rewrite Hr.
    cbn [ret write_item]. exact (G 1%nat v H Hv).
  - destruct (restore_fixed 1 st ltac:(lia) H) as (v & Hr & Hv).
    rewrite readByteUnsigned_unfold. cbv zeta.
    rewrite read_fixed_unfold in Hr. cbv zeta in Hr.
    change (DataView.get_signed 1) with DataView.getInt8 in Hr.
    destruct (DataView.getInt8 (data st) (readerIndex st)) as [x|];
      [|discriminate].
    injection Hr as ->. cbn [ret write_item].
    change (writeByteUnsigned (v + 128)) with (write_fixed 1 (v + 128 - 128)).
    rewrite Z.add_simpl_r. exact (G 1%nat v H Hv).
  - destruct (restore_fixed 2 st ltac:(lia) H) as (v & Hr & Hv).
    change readShort with (read_fixed 2). rewrite Hr.
    cbn [ret write_item]. exact (G 2%nat v H Hv).
  - destruct (restore_fixed 4 st ltac:(lia) H) as (v & Hr & Hv).
    change readInt with (read_fixed 4). rewrite Hr.
    cbn [ret write_item]. exact (G 4%nat v H Hv).
  - destruct (restore_fixed 8 st ltac:(lia) H) as (v & Hr & Hv).
    change readLong with (read_fixed 8). rewrite Hr.
    cbn [ret write_item]. exact (G 8%nat v H Hv).
Qed.

Lemma write_back_restores_witness :
  let st := from_uint8 [x80; xff; x01; x7f] in
  (it <- read_kind KInt ;; setWriterIndex (readerIndex st) ;;; write_item it) st
  = Ok tt (mkByteBuf (readerIndex st + Z.of_nat (kind_size KInt))
             (readerIndex st + Z.of_nat (kind_size KInt)) (data st)).
Proof.
  apply (write_back_restores KInt (from_uint8 [x80; xff; x01; x7f]));
    [discriminate | discriminate | reflexivity].
Defined.

(** ** Sequences of values *)

Lemma encode_length (it : item) : length (encode it) = size_of it.
Proof.
  destruct it; cbn [encode size_of]; rewrite ?length_app, ?length_map;
    now rewrite length_be_split.
Qed.

Lemma encode_all_length (its : list item) :
  length (concat (map encode its)) = total_size its.
Proof.
  induction its as [|it its IH]; cbn [map concat total_size fold_right length];
    [reflexivity|].
  rewrite length_app, encode_length. fold (total_size its). lia.
Qed.

Lemma write_item_fits (it : item) (st : ByteBuf) :
  DataView.fits (data st) (writerIndex st) (size_of it) = true ->
  write_item it st
  = Ok tt (mkByteBuf (readerIndex st)
             (writerIndex st + Z.of_nat (size_of it))
             (splice (Z.to_nat (writerIndex st)) (encode it) (data st))).
Proof.
  intros H. destruct it; cbn [write_item encode size_of] in *.
  - exact (write_fixed_fits 1 _ st H).
  - exact (write_fixed_fits 1 _ st H).
  - exact (write_fixed_fits 1 _ st H).
  - exact (write_fixed_fits 2 _ st H).
  - exact (write_fixed_fits 4 _ st H).
  - exact (write_fixed_fits 8 _ st H).
  - rewrite writeByteString_fits by exact H. do 2 f_equal. lia.
Qed.

Lemma write_items_fits (its : list item) (st : ByteBuf) :
  DataView.fits (data st) (writerIndex st) (total_size its) = true ->
  write_items its st
  = Ok tt (mkByteBuf (readerIndex st)
             (writerIndex st + Z.of_nat (total_size its))
             (splice (Z.to_nat (writerIndex st)) (concat (map encode its))
                (data st))).
Proof.
  revert st. induction its as [|it its IH]; intros [r w d] H;
    cbn [readerIndex writerIndex data] in *.
  - cbn [write_items ret map concat total_size fold_right].
    now rewrite splice_nil, Z.add_0_r.
  - pose proof H as H'. apply fits_true in H'.
    cbn [total_size fold_right] in H'. fold (total_size its) in H'.
    cbn [write_items]. unfold bind.
    rewrite write_item_fits by (apply fits_true; cbn [data writerIndex]; lia).
    cbn [readerIndex writerIndex data].
    rewrite IH; cbn [readerIndex writerIndex data].
    + cbn [total_size fold_right map concat]. fold (total_size its).
      f_equal. f_equal; [lia|].
      replace (Z.to_nat (w + Z.of_nat (size_of it)))
        with (Z.to_nat w + length (encode it))%nat
        by (rewrite encode_length; lia).
      apply splice_app. rewrite encode_length, encode_all_length. lia.
    + apply fits_true.
      rewrite length_splice by (rewrite encode_length; lia). lia.
Qed.

Lemma skipn_prefix_fits (d a tail : list byte) (r : Z) :
  0 <= r -> (0 < length a)%nat ->
  skipn (Z.to_nat r) d = a ++ tail ->
  DataView.fits d r (length a) = true.
Proof.
  intros Hr Ha E. apply fits_true. split; [exact Hr|].
  apply (f_equal (@length byte)) in E.
  rewrite length_skipn, length_app in E. lia.
Qed.

Lemma firstn_app_length (a b : list byte) : firstn (length a) (a ++ b) = a.
Proof.
  rewrite firstn_app, Nat.sub_diag, firstn_all. cbn [firstn].
  apply app_nil_r.
Qed.

Lemma get_signed_stored (w : nat) (d tail : list byte) (r v : Z) :
  0 <= r -> (0 < w)%nat ->
  skipn (Z.to_nat r) d = be_split w v ++ tail ->
  DataView.get_signed w d r
  = Some (to_signed (8 * Z.of_nat w) (v mod 2 ^ (8 * Z.of_nat w))).
Proof.
  intros Hr Hw E.
  pose proof (skipn_prefix_fits d (be_split w v) tail r Hr) as Hf.
  rewrite length_be_split in Hf. specialize (Hf Hw E).
  unfold DataView.get_signed, DataView.get_unsigned, DataView.get_bytes.
  pose proof (firstn_app_length (be_split w v) tail) as F.
  rewrite length_be_split in F.
  rewrite Hf, E, F. cbn [option_map].
  now rewrite be_combine_split.
Qed.

Lemma read_fixed_stored (w : nat) (st : ByteBuf) (tail : list byte) (v : Z) :
  0 <= readerIndex st -> (0 < w)%nat ->
  - 2 ^ (8 * Z.of_nat w - 1) <= v < 2 ^ (8 * Z.of_nat w - 1) ->
  skipn (Z.to_nat (readerIndex st)) (data st) = be_split w v ++ tail ->
  read_fixed w st
  = Ok v (mkByteBuf (readerIndex st + Z.of_nat w) (writerIndex st) (data st)).
Proof.
  intros Hr Hw Hv E. rewrite read_fixed_unfold. cbv zeta.
  rewrite (get_signed_stored w _ tail _ v Hr Hw E).
  now rewrite to_signed_wrap by lia.
Qed.

Lemma read_item_stored (it : item) (st : ByteBuf) (tail : list byte) :
  in_domain it ->
  0 <= readerIndex st ->
  skipn (Z.to_nat (readerIndex st)) (data st) = encode it ++ tail ->
  read_kind (kind_of it) st
  = Ok it (mkByteBuf (readerIndex st + Z.of_nat (size_of it))
             (writerIndex st) (data st)).
Proof.
  intros Hd Hr E.
  destruct it; cbn [in_domain kind_of read_kind encode size_of] in *;
    unfold bind.
  - rewrite readBool_unfold. cbv zeta. unfold DataView.getInt8.
    rewrite (get_signed_stored 1 _ tail _ _ Hr ltac:(lia) E).
    now destruct b.
  - change readByteSigned with (read_fixed 1).
    now rewrite (read_fixed_stored 1 st tail v Hr ltac:(lia) Hd E).
  - rewrite readByteUnsigned_unfold. cbv zeta. unfold DataView.getInt8.
    rewrite (get_signed_stored 1 _ tail _ _ Hr ltac:(lia) E).
    change (8 * Z.of_nat 1) with 8.
    rewrite to_signed_wrap by (cbn; lia). cbn [ret].
    now rewrite Z.sub_simpl_r.
  - change readShort with (read_fixed 2).
    now rewrite (read_fixed_stored 2 st tail v Hr ltac:(lia) Hd E).
  - change readInt with (read_fixed 4).
    now rewrite (read_fixed_stored 4 st tail v Hr ltac:(lia) Hd E).
  - change readLong with (read_fixed 8).
    now rewrite (read_fixed_stored 8 st tail v Hr ltac:(lia) Hd E).
  - destruct Hd as [Hs Hl].
    set (a := be_split 4 (Z.of_nat (length s)) ++ map byte_of_Z s) in *.
    assert (La : length a = (4 + length s)%nat)
      by (subst a; now rewrite length_app, length_be_split, length_map).
    pose proof (skipn_prefix_fits (data st) a tail _ Hr ltac:(lia) E) as Hf.
    rewrite La in Hf. pose proof Hf as Hf'. apply fits_true in Hf'.
    rewrite (readByteString_stored s (readerIndex st) (data st) st Hs Hl Hf
               eq_refl).
    + unfold ret. do 2 f_equal. lia.
    + fold a. symmetry. apply splice_self; [|lia].
      rewrite E. apply firstn_app_length.
Qed.

Lemma read_kinds_stored (its : list item) (st : ByteBuf) (tail : list byte) :
  Forall in_domain its ->
  0 <= readerIndex st ->
  skipn (Z.to_nat (readerIndex st)) (data st)
  = concat (map encode its) ++ tail ->
  read_kinds (map kind_of its) st
  = Ok its (mkByteBuf (readerIndex st + Z.of_nat (total_size its))
              (writerIndex st) (data st)).
Proof.
  revert st. induction its as [|it its IH]; intros [r w d] Hd Hr E;
    cbn [readerIndex writerIndex data] in *.
  - cbn [map read_kinds ret total_size fold_right]. now rewrite Z.add_0_r.
  - inversion Hd as [|? ? Hit Hits]; subst.
    cbn [map concat] in E. rewrite <- app_assoc in E.
    cbn [map read_kinds]. unfold bind at 1.
    rewrite (read_item_stored it (mkByteBuf r w d) _ Hit Hr E).
    cbn [readerIndex writerIndex data]. unfold bind at 1.
    rewrite (IH (mkByteBuf (r + Z.of_nat (size_of it)) w d) Hits);
      cbn [readerIndex writerIndex data].
    + unfold ret. cbn [total_size fold_right]. fold (total_size its).
      do 2 f_equal. lia.
    + lia.
    + replace (Z.to_nat (r + Z.of_nat (size_of it)))
        with (length (encode it) + Z.to_nat r)%nat
        by (rewrite encode_length; lia).
      rewrite <- skipn_skipn, E, skipn_app, skipn_all, Nat.sub_diag.
      reflexivity.
Qed.

(** X12: values written one after the other come back in the order they
    were written.  For every sequence of booleans, integers and strings
    of their types' domains and every position [P] with room for all of
    them, writing them from [P] on and then reading the same kinds from
    [P] on returns the sequence, and both cursors end after the last
    byte written. *)
Theorem sequence_round_trip (its : list item) (P : Z) (st : ByteBuf) :
  Forall in_domain its ->
  DataView.fits (data st) P (total_size its) = true ->
  exists st',
    (setWriterIndex P ;;; write_items its ;;;
     setReaderIndex P ;;; read_kinds (map kind_of its)) st
    = Ok its st' /\
    readerIndex st' = P + Z.of_nat (total_size its) /\
    writerIndex st' = P + Z.of_nat (total_size its).
Proof.
  intros Hd H. pose proof H as H'. apply fits_true in H'.
  unfold bind at 1. unfold setWriterIndex, put_writerIndex.
  unfold bind at 1. rewrite write_items_fits by exact H.
  cbn [readerIndex writerIndex data].
  unfold bind at 1. unfold setReaderIndex, put_readerIndex.
  cbn [readerIndex writerIndex data].
  rewrite (read_kinds_stored its _
             (skipn (Z.to_nat P + total_size its) (data st)) Hd);
    cbn [readerIndex writerIndex data].
  - eexists. split; [reflexivity|]. split; reflexivity.
  - lia.
  - rewrite skipn_splice by (rewrite encode_all_length; lia).
    now rewrite encode_all_length.
Qed.

Lemma sequence_round_trip_witness :
  let its := [IInt 1000; IInt (-1); IBool true; IByteString [65; 66];
              IByteUnsigned 255; ILong (- 2 ^ 63); IShort 7;
              IByteSigned (-128)] in
  exists st',
    (setWriterIndex 2 ;;; write_items its ;;;
     setReaderIndex 2 ;;; read_kinds (map kind_of its)) (emptyBuffer 32)
    = Ok its st' /\
    readerIndex st' = 2 + Z.of_nat (total_size its) /\
    writerIndex st' = 2 + Z.of_nat (total_size its).
Proof.
  apply (sequence_round_trip
           [IInt 1000; IInt (-1); IBool true; IByteString [65; 66];
            IByteUnsigned 255; ILong (- 2 ^ 63); IShort 7;
            IByteSigned (-128)] 2 (emptyBuffer 32)).
  - repeat (apply Forall_cons || apply Forall_nil); cbn [in_domain];
      try exact I; try lia.
    split; [repeat constructor; lia | vm_compute; discriminate].
  - reflexivity.
Defined.

(** X13: what one buffer wrote, another reads.  After a sequence of values
    of their types' domains is written to a buffer made by [emptyBuffer]
    with room for them, a buffer made by [from_uint8] from the result of
    [bytes] returns the same sequence when the same kinds are read. *)
Theorem bytes_transfer (its : list item) (n : nat) :
  Forall in_domain its ->
  (total_size its <= n)%nat ->
  exists st' bs st'',
    write_items its (emptyBuffer n) = Ok tt st' /\
    bytes st' = Ok bs st' /\
    length bs = n /\
    read_kinds (map kind_of its) (from_uint8 bs) = Ok its st''.
Proof.
  intros Hd Hn.
  assert (H : DataView.fits (data (emptyBuffer n))
                (writerIndex (emptyBuffer n)) (total_size its) = true)
    by (apply fits_true; cbn [emptyBuffer new_ByteBuf data writerIndex];
        rewrite repeat_length; lia).
  rewrite write_items_fits by exact H.
  cbn [emptyBuffer new_ByteBuf readerIndex writerIndex data].
  eexists. eexists. eexists. split; [reflexivity|].
  split; [reflexivity|]. cbn [data]. split.
  - rewrite length_splice; rewrite ?encode_all_length, repeat_length;
      cbn; lia.
  - unfold from_uint8, new_ByteBuf.
    rewrite (read_kinds_stored its _ (skipn (total_size its) (repeat x00 n)) Hd);
      cbn [readerIndex writerIndex data].
    + reflexivity.
    + lia.
    + change (Z.to_nat 0) with 0%nat.
      rewrite skipn_splice
        by (rewrite encode_all_length, repeat_length; cbn; lia).
      now rewrite encode_all_length.
Qed.

Lemma bytes_transfer_witness :
  exists st' bs st'',
    write_items [IByteString [72; 105]; IInt (-7)] (emptyBuffer 10)
    = Ok tt st' /\
    bytes st' = Ok bs st' /\
    length bs = 10%nat /\
    read_kinds (map kind_of [IByteString [72; 105]; IInt (-7)])
      (from_uint8 bs)
    = Ok [IByteString [72; 105]; IInt (-7)] st''.
Proof.
  apply (bytes_transfer [IByteString [72; 105]; IInt (-7)] 10).
  - repeat (apply Forall_cons || apply Forall_nil); cbn [in_domain]; try lia.
    split; [repeat constructor; lia | vm_compute; discriminate].
  - cbn. lia.
Defined.

(** ** Byte order *)

Lemma nth_error_be_split (w k : nat) (v : Z) :
  (k < w)%nat ->
  nth_error (be_split w v) k
  = Some (byte_of_Z (v / 2 ^ (8 * Z.of_nat (w - 1 - k)))).
Proof.
  revert k. induction w as [|w IH]; intros k Hk; [lia|].
  cbn [be_split]. destruct k as [|k]; cbn [nth_error].
  - now replace (S w - 1 - 0)%nat with w by lia.
  - rewrite IH by lia. now replace (S w - 1 - S k)%nat with (w - 1 - k)%nat by lia.
Qed.

Lemma write_fixed_layout (w k : nat) (v : Z) (st : ByteBuf) :
  (k < w)%nat ->
  DataView.fits (data st) (writerIndex st) w = true ->
  option_map byte_to_Z
    (byte_at (state_of (write_fixed w v st)) (writerIndex st + Z.of_nat k))
  = Some ((v / 2 ^ (8 * Z.of_nat (w - 1 - k))) mod 256).
Proof.
  intros Hk H. pose proof H as H'. apply fits_true in H'.
  rewrite write_fixed_fits by exact H. cbn [state_of].
  unfold byte_at. cbn [data].
  destruct (Z.leb_spec 0 (writerIndex st + Z.of_nat k)); [|lia].
  replace (Z.to_nat (writerIndex st + Z.of_nat k))
    with (Z.to_nat (writerIndex st) + k)%nat by lia.
  rewrite nth_error_splice by (rewrite length_be_split; lia).
  rewrite nth_error_be_split by exact Hk. cbn [option_map].
  now rewrite byte_to_of_Z.
Qed.

(** X14: the multi-byte integers are stored most significant byte first:
    after [writeShort v], [writeInt v] or [writeLong v] with room at the
    write cursor [w], the byte at [w + k] is
    [(v / 256^(K - 1 - k)) mod 256], for K = 2, 4, 8 and every [k < K]. *)
Theorem big_endian_layout (st : ByteBuf) (v : Z) (k : nat) :
  ((k < 2)%nat ->
   DataView.fits (data st) (writerIndex st) 2 = true ->
   option_map byte_to_Z
     (byte_at (state_of (writeShort v st)) (writerIndex st + Z.of_nat k))
   = Some ((v / 2 ^ (8 * Z.of_nat (2 - 1 - k))) mod 256)) /\
  ((k < 4)%nat ->
   DataView.fits (data st) (writerIndex st) 4 = true ->
   option_map byte_to_Z
     (byte_at (state_of (writeInt v st)) (writerIndex st + Z.of_nat k))
   = Some ((v / 2 ^ (8 * Z.of_nat (4 - 1 - k))) mod 256)) /\
  ((k < 8)%nat ->
   DataView.fits (data st) (writerIndex st) 8 = true ->
   option_map byte_to_Z
     (byte_at (state_of (writeLong v st)) (writerIndex st + Z.of_nat k))
   = Some ((v / 2 ^ (8 * Z.of_nat (8 - 1 - k))) mod 256)).
Proof.
  split; [| split].
  - exact (write_fixed_layout 2 k v st).
  - exact (write_fixed_layout 4 k v st).
  - exact (write_fixed_layout 8 k v st).
Qed.

Lemma big_endian_layout_witness :
  option_map byte_to_Z
    (byte_at (state_of (writeInt 16909060 (emptyBuffer 4)))
       (writerIndex (emptyBuffer 4) + Z.of_nat 1))
  = Some ((16909060 / 2 ^ (8 * Z.of_nat (4 - 1 - 1))) mod 256).
Proof.
  destruct (big_endian_layout (emptyBuffer 4) 16909060 1) as (_ & H & _).
  apply H; [lia | reflexivity].
Defined.

(** ** When a read returns *)

Lemma get_signed_none (w : nat) (d : list byte) (off : Z) :
  DataView.get_signed w d off = None <-> DataView.fits d off w = false.
Proof.
  unfold DataView.get_signed, DataView.get_unsigned, DataView.get_bytes.
  destruct (DataView.fits d off w); cbn; split; congruence.
Qed.

(** X15: a fixed-width read returns a value exactly when the bytes it needs
    lie within the storage; it never returns a value made from anything
    outside the storage, a negative read cursor included. *)
Theorem read_returns_iff_fits (k : kind) (st : ByteBuf) :
  k <> KByteString ->
  (value_of (read_kind k st) = None <->
   DataView.fits (data st) (readerIndex st) (kind_size k) = false).
Proof.
  intros Hk.
  destruct k; try congruence; cbn [read_kind kind_size]; unfold bind;
    rewrite ?readBool_unfold, ?readByteUnsigned_unfold;
    try change readByteSigned with (read_fixed 1);
    try change readShort with (read_fixed 2);
    try change readInt with (read_fixed 4);
    try change readLong with (read_fixed 8);
    rewrite ?read_fixed_unfold; cbv zeta;
    unfold DataView.getInt8;
    match goal with
    | |- context [DataView.get_signed ?w ?d ?r] =>
        rewrite <- (get_signed_none w d r);
        destruct (DataView.get_signed w d r); cbn; split; congruence
    end.
Qed.

Lemma read_returns_iff_fits_witness :
  value_of (read_kind KInt (from_uint8 [x01; x02; x03])) = None <->
  DataView.fits (data (from_uint8 [x01; x02; x03]))
    (readerIndex (from_uint8 [x01; x02; x03])) (kind_size KInt) = false.
Proof.
  apply (read_returns_iff_fits KInt (from_uint8 [x01; x02; x03])).
  discriminate.
Defined.

(** ** Single-precision numbers *)

Section FloatRoundTrip.
Context {float : Type}.
Variable float32_of_bits : Z -> float.
Variable float32_bits : float -> Z.

(** X16: a number written by [writeFloat] and read by [readFloat] at a
    position inside the storage comes back whenever the platform decodes
    the 32 bits of its binary32 encoding of that number to the number
    itself. *)
Theorem float_round_trip (st : ByteBuf) (P : Z) (f : float) :
  DataView.fits (data st) P 4 = true ->
  float32_of_bits (float32_bits f mod 2 ^ 32) = f ->
  round_trips (writeFloat float32_bits f) (readFloat float32_of_bits) f P st.
Proof.
  intros H Hf. unfold round_trips.
  change (writeFloat float32_bits f) with (write_fixed 4 (float32_bits f)).
  rewrite write_then_seek by exact H.
  unfold readFloat, bind, add_readerIndex, get_readerIndex, put_readerIndex,
    view_get, bind. cbn [readerIndex writerIndex data].
  rewrite Z.add_simpl_r. unfold DataView.getFloat32.
  rewrite get_unsigned_set_int by exact H.
  cbn [option_map value_of]. change (8 * Z.of_nat 4) with 32.
  now rewrite Hf.
Qed.
End FloatRoundTrip.

Lemma float_round_trip_witness :
  round_trips (writeFloat bits_of_bits 1065353216)
    (readFloat (fun z => z)) 1065353216 4 (emptyBuffer 8).
Proof.
  apply (float_round_trip (fun z => z) bits_of_bits (emptyBuffer 8) 4
           1065353216); reflexivity.
Defined.

(** ** The layout of a string *)

Lemma skipn_stored_string (s : jsstring) (P : Z) (d : list byte) :
  DataView.fits d P (4 + length s) = true ->
  skipn (Z.to_nat P)
    (splice (Z.to_nat P)
       (be_split 4 (Z.of_nat (length s)) ++ map byte_of_Z s) d)
  = be_split 4 (Z.of_nat (length s))
    ++ (map byte_of_Z s ++ skipn (Z.to_nat P + (4 + length s)) d).
Proof.
  intros H. apply fits_true in H.
  rewrite skipn_splice
    by (rewrite length_app, length_be_split, length_map; lia).
  rewrite length_app, length_be_split, length_map.
  now rewrite <- app_assoc.
Qed.

(** X17: the four bytes [writeByteString s] stores first are the number of
    code units of [s] as a big-endian int32: [readInt] at the position of
    the string returns the length of [s]. *)
Theorem string_prefix_is_length (s : jsstring) (P : Z) (st : ByteBuf) :
  Z.of_nat (length s) <= max_string_length ->
  DataView.fits (data st) P (4 + length s) = true ->
  value_of ((setWriterIndex P ;;; writeByteString s ;;;
             setReaderIndex P ;;; readInt) st)
  = Some (Z.of_nat (length s)).
Proof.
  intros Hl H. pose proof H as H'. apply fits_true in H'.
  unfold max_string_length in Hl.
  unfold bind at 1. unfold setWriterIndex, put_writerIndex.
  unfold bind at 1. rewrite writeByteString_fits by exact H.
  cbn [readerIndex writerIndex data].
  unfold bind at 1. unfold setReaderIndex, put_readerIndex.
  cbn [readerIndex writerIndex data].
  change readInt with (read_fixed 4).
  pose proof (skipn_stored_string s P (data st) H) as Hsk.
  match goal with
  | |- value_of (read_fixed 4 ?st0) = _ =>
      rewrite (read_fixed_stored 4 st0 _ (Z.of_nat (length s))
                 ltac:(cbn; lia) ltac:(lia)
                 ltac:(change (8 * Z.of_nat 4 - 1) with 31; lia) Hsk)
  end.
  reflexivity.
Qed.

Lemma string_prefix_is_length_witness :
  value_of ((setWriterIndex 1 ;;; writeByteString [72; 8364; 105] ;;;
             setReaderIndex 1 ;;; readInt) (emptyBuffer 8))
  = Some (Z.of_nat (length [72; 8364; 105])).
Proof.
  apply (string_prefix_is_length [72; 8364; 105] 1 (emptyBuffer 8));
    [vm_compute; discriminate | reflexivity].
Defined.

(** X18: a string of arbitrary code units comes back with every code unit
    reduced modulo 256: written and read at a position with room for it,
    [s] is returned as [map (fun c => c mod 256) s]. *)
Theorem string_round_trip_mod_256 (s : jsstring) (P : Z) (st : ByteBuf) :
  Z.of_nat (length s) <= max_string_length ->
  DataView.fits (data st) P (4 + length s) = true ->
  value_of ((setWriterIndex P ;;; writeByteString s ;;;
             setReaderIndex P ;;; readByteString) st)
  = Some (map (fun c => c mod 256) s).
Proof.
  intros Hl H. pose proof H as H'. apply fits_true in H'.
  unfold max_string_length in Hl.
  unfold bind at 1. unfold setWriterIndex, put_writerIndex.
  unfold bind at 1. rewrite writeByteString_fits by exact H.
  cbn [readerIndex writerIndex data].
  unfold bind at 1. unfold setReaderIndex, put_readerIndex.
  cbn [readerIndex writerIndex data].
  set (d' := splice (Z.to_nat P)
               (be_split 4 (Z.of_nat (length s)) ++ map byte_of_Z s)
               (data st)).
  assert (Hsk : skipn (Z.to_nat P) d'
                = be_split 4 (Z.of_nat (length s))
                  ++ (map byte_of_Z s
                      ++ skipn (Z.to_nat P + (4 + length s)) (data st)))
    by (subst d'; now apply skipn_stored_string).
  assert (Ld : length d' = length (data st)).
  { subst d'. apply length_splice.
    rewrite length_app, length_be_split, length_map. lia. }
  assert (Hn : DataView.getInt32 d' P = Some (Z.of_nat (length s))).
  { unfold DataView.getInt32.
    rewrite (get_signed_stored 4 d' _ P (Z.of_nat (length s))
               ltac:(lia) ltac:(lia) Hsk).
    f_equal. apply to_signed_wrap; [lia|].
    change (8 * Z.of_nat 4 - 1) with 31. lia. }
  rewrite readByteString_outcome. cbn [readerIndex writerIndex data].
  rewrite Hn, Nat2Z.id.
  replace (DataView.fits d' (P + 4) (length s)) with true
    by (symmetry; apply fits_true; lia).
  cbn [value_of]. f_equal.
  replace (Z.to_nat (P + 4)) with (4 + Z.to_nat P)%nat by lia.
  rewrite <- skipn_skipn, Hsk.
  rewrite <- (length_be_split 4 (Z.of_nat (length s))) at 1.
  rewrite skipn_app, skipn_all, Nat.sub_diag. cbn [skipn app].
  rewrite <- (length_map byte_of_Z s) at 1.
  rewrite firstn_app_length, map_map.
  apply map_ext. intros c. apply byte_to_of_Z.
Qed.

Lemma string_round_trip_mod_256_witness :
  value_of ((setWriterIndex 0 ;;; writeByteString [72; 8364; 65535] ;;;
             setReaderIndex 0 ;;; readByteString) (emptyBuffer 8))
  = Some (map (fun c => c mod 256) [72; 8364; 65535]).
Proof.
  apply (string_round_trip_mod_256 [72; 8364; 65535] 0 (emptyBuffer 8));
    [vm_compute; discriminate | reflexivity].
Defined.
